(** * stock-tui: fetch client, orchestrator and chart scaling

    A shallow embedding of
      - internal/data/http.go          (module [Http]),
      - internal/ui/watchlist          (module [Watchlist]),
      - internal/ui/chart/chart.go     (module [Chart]),
      - internal/app/app.go            (module [App]),
    and the properties of the specification that are decided by them.
    The list, help and footer widgets are interfaces; module [Plain] holds
    instances of them and the states the examples run on.

    Conventions.
      - Go [int], [int64] and [time.Duration] are [Z]; a [time.Duration] counts
        nanoseconds and its multiplication wraps at 64 bits ([wrap64]).
      - Go [float64] prices are exact rationals [Q]: finite values without
        rounding and without NaN.  [int(x)] on a float is truncation
        towards zero ([truncate]).
      - Go [error] values are the inductive type [error]; a nil error is
        [None].
      - A [tea.Cmd] is data ([App.Cmd]): the orchestrator returns the list of
        commands it batches. *)

From Stdlib Require Import ZArith QArith Qround Lia Lqa.
From stdpp Require Import gmap strings list.

#[local] Open Scope Z_scope.

(** ** Shared Go values *)

(** [bytes] is Go's [[]byte]. *)
Abbreviation bytes := (list Byte.byte).

(** The error values that flow through the program.  [afterRetries] is
    [fmt.Errorf("after %d retries: %w", n, cause)], [wrapError] any other
    [%w] wrapper a caller puts around a cause, [opaqueError] an error of a
    library (transport, body read, request construction). *)
Inductive error : Type :=
| RateLimitError (RetryAfter : Z)
| httpError (StatusCode : Z)
| ctxError
| opaqueError (msg : string)
| afterRetries (MaxRetries : Z) (cause : error)
| wrapError (prefix : string) (cause : error)
| fetchFailed.

(** [errors.As(err, &rateLimitErr)]: the first [*RateLimitError] of the
    chain of causes. *)
Fixpoint errors_As_RateLimit (e : error) : option Z :=
  match e with
  | RateLimitError d => Some d
  | afterRetries _ c => errors_As_RateLimit c
  | wrapError _ c => errors_As_RateLimit c
  | _ => None
  end.

Definition Nanosecond : Z := 1.
Definition Millisecond : Z := 1000000 * Nanosecond.
Definition Second : Z := 1000 * Millisecond.

(** Two's complement wrap-around of a 64-bit signed integer. *)
Definition wrap64 (z : Z) : Z := (z + 2 ^ 63) mod 2 ^ 64 - 2 ^ 63.

(** ** internal/data/http.go *)

Module Http.

Definition StatusOK : Z := 200.
Definition StatusTooManyRequests : Z := 429.

(** [httpError.IsRateLimit] and [httpError.IsRetryable]. *)
Definition IsRateLimit (StatusCode : Z) : bool := StatusCode =? StatusTooManyRequests.
Definition IsRetryable (StatusCode : Z) : bool := StatusCode >=? 500.

Record fetchOptions : Type := { MaxRetries : Z; BaseDelay : Z }.

Definition defaultFetchOptions : fetchOptions :=
  {| MaxRetries := 3; BaseDelay := 500 * Millisecond |}.

(** What one pass through the loop body meets after the request is built:
    [defaultClient.Do] fails, or a response arrives and [io.ReadAll] of its
    body fails, or the response is received whole.  [retryAfter] is
    [resp.Header.Get("Retry-After")], the empty string when the header is
    absent. *)
Inductive outcome : Type :=
| DoFailed (e : error)
| ReadFailed (StatusCode : Z) (retryAfter : string) (e : error)
| Received (StatusCode : Z) (retryAfter : string) (body : bytes).

(** The surroundings of one call of [fetch]: whether
    [http.NewRequestWithContext] fails for this url, whether the context is
    done before the timer of the sleep that precedes an attempt, and what
    the transport answers to the request of an attempt. *)
Record world : Type := {
  newRequest : option error;
  ctxDone : Z → bool;
  roundTrip : Z → outcome
}.

(** What [fetch] does to the outside, in order. *)
Inductive event : Type :=
| Slept (d : Z)
| Sent.

(** The number of requests among the events of a call. *)
Definition isSent (ev : event) : bool :=
  match ev with Sent => true | Slept _ => false end.

Definition requests (tr : list event) : nat := length (List.filter isSent tr).

(** The number of sleeps among the events of a call. *)
Definition isSlept (ev : event) : bool :=
  match ev with Slept _ => true | Sent => false end.

Definition sleeps (tr : list event) : nat := length (List.filter isSlept tr).

(** [opts.BaseDelay * time.Duration(1<<(attempt-1))]. *)
Definition delay (opts : fetchOptions) (attempt : Z) : Z :=
  wrap64 (BaseDelay opts * wrap64 (Z.shiftl 1 (attempt - 1))).

Section Fetch.

(** [time.ParseDuration] of Go's standard library: [None] is its error. *)
Variable ParseDuration : string → option Z.

(** Lines 92-98: the duration carried by the rate-limit error. *)
Definition retryAfterOf (retryStr : string) : Z :=
  let retryAfter := 60 * Second in
  if String.eqb retryStr "" then retryAfter
  else match ParseDuration (retryStr +:+ "s") with
       | Some d => d
       | None => retryAfter
       end.

Variable w : world.
Variable opts : fetchOptions.

(** The [for] loop of [fetch]; [fuel] is the number of iterations left,
    [tr] the events so far. *)
Fixpoint loop (fuel : nat) (attempt : Z) (lastErr : option error) (tr : list event)
  : (bytes + error) * list event :=
  match fuel with
  | O =>
      match lastErr with
      | Some e => (inr (afterRetries (MaxRetries opts) e), tr)
      | None => (inr fetchFailed, tr)
      end
  | S fuel' =>
      if (attempt >? 0) && ctxDone w attempt then (inr ctxError, tr)
      else
        let tr := if attempt >? 0 then tr ++ [Slept (delay opts attempt)] else tr in
        match newRequest w with
        | Some e => (inr e, tr)
        | None =>
            let tr := tr ++ [Sent] in
            match roundTrip w attempt with
            | DoFailed e => loop fuel' (attempt + 1) (Some e) tr
            | ReadFailed _ _ e => loop fuel' (attempt + 1) (Some e) tr
            | Received StatusCode retryStr body =>
                if StatusCode =? StatusTooManyRequests then
                  (inr (RateLimitError (retryAfterOf retryStr)), tr)
                else if negb (StatusCode =? StatusOK) then
                  if IsRetryable StatusCode
                  then loop fuel' (attempt + 1) (Some (httpError StatusCode)) tr
                  else (inr (httpError StatusCode), tr)
                else (inl body, tr)
            end
        end
  end.

(** [fetch]: the loop runs for [attempt = 0 .. MaxRetries]. *)
Definition fetch_with : (bytes + error) * list event :=
  loop (Z.to_nat (MaxRetries opts + 1)) 0 None [].

End Fetch.

(** [fetch(ctx, url, opts)] with [opts == nil] standing for the defaults. *)
Definition fetch (ParseDuration : string → option Z) (w : world)
    (opts : option fetchOptions) : (bytes + error) * list event :=
  fetch_with ParseDuration w (default defaultFetchOptions opts).

(** The cause a retryable outcome leaves in [lastErr]; [None] for an
    outcome that ends the call. *)
Definition retryable (o : outcome) : option error :=
  match o with
  | DoFailed e => Some e
  | ReadFailed _ _ e => Some e
  | Received StatusCode _ _ =>
      if IsRetryable StatusCode then Some (httpError StatusCode) else None
  end.

(** The events of a call whose attempts [0 .. n] were all made:
    a request, then a sleep and a request per further attempt. *)
Fixpoint schedule (opts : fetchOptions) (n : nat) : list event :=
  match n with
  | O => [Sent]
  | S n' => schedule opts n' ++ [Slept (delay opts (Z.of_nat n)); Sent]
  end.

(** The events so far when attempt [n] starts, and the cause held in
    [lastErr] at that point, in a call whose earlier attempts all failed
    retryably. *)
Definition eventsBefore (opts : fetchOptions) (n : nat) : list event :=
  match n with O => [] | S m => schedule opts m end.

Definition causeBefore (w : world) (n : nat) : option error :=
  match n with O => None | S m => retryable (roundTrip w (Z.of_nat m)) end.

(** Attempts [0 .. n-1] fail retryably and no sleep up to the one before
    attempt [n] is cut short by the context. *)
Definition reaches (w : world) (n : nat) : Prop :=
  newRequest w = None
  ∧ (∀ i : nat, (0 < i ≤ n)%nat → ctxDone w (Z.of_nat i) = false)
  ∧ (∀ i : nat, (i < n)%nat → is_Some (retryable (roundTrip w (Z.of_nat i)))).

(** The events of a call with the default options whose four attempts are
    all made. *)
Definition defaultBackoff : list event :=
  [Sent; Slept (500 * Millisecond); Sent;
   Slept (1000 * Millisecond); Sent;
   Slept (2000 * Millisecond); Sent].

(** An instance of [ParseDuration] for the inputs [<decimal digits>s]:
    whole seconds, in nanoseconds; everything else is an error. *)
Definition digitOf (a : Ascii.ascii) : option Z :=
  let n := Z.of_N (Ascii.N_of_ascii a) in
  if (48 <=? n) && (n <=? 57) then Some (n - 48) else None.

Fixpoint leadingInt (s : string) (acc : Z) (seen : bool) : option (Z * string) :=
  match s with
  | EmptyString => if seen then Some (acc, s) else None
  | String a rest =>
      match digitOf a with
      | Some d => leadingInt rest (10 * acc + d) true
      | None => if seen then Some (acc, s) else None
      end
  end.

Definition parseWholeSeconds (s : string) : option Z :=
  match leadingInt s 0 false with
  | Some (v, "s"%string) =>
      if v >? 2 ^ 63 / Second then None
      else if v * Second >? 2 ^ 63 - 1 then None else Some (v * Second)
  | _ => None
  end.

(** Worlds: the transport answers the attempts with the outcomes of a
    script, in order, and with [DoFailed] once the script is over; the
    request can be built and the context is never done. *)
Definition scripted (script : list outcome) : world :=
  {| newRequest := None;
     ctxDone := fun _ => false;
     roundTrip := fun attempt =>
       nth (Z.to_nat attempt) script (DoFailed (opaqueError "connection refused")) |}.

End Http.

(** ** The values of package models and the messages of the event loop *)

(** [models.TimeRange] is a string type with four constants; its
    declaration is not among the sources, the constants are spelled as the
    variants of the specification (and as the strings [New] switches on). *)
Inductive TimeRange : Type := Range1H | Range24H | Range7D | Range30D.

#[global] Instance TimeRange_eq_dec : EqDecision TimeRange.
Proof. solve_decision. Defined.

(** [string(tr)]. *)
Definition TimeRange_string (tr : TimeRange) : string :=
  match tr with
  | Range1H => "1H"
  | Range24H => "24H"
  | Range7D => "7D"
  | Range30D => "30D"
  end.

(** [models.Quote] and [models.Candle], with the fields the code reads. *)
Record Quote : Type := { Symbol : string; Price : Q; ChangePct : Q }.

Record Candle : Type := { Open : Q; High : Q; Low : Q; Close : Q }.

(** Comparisons of prices: [x < y], and Go's [int(x)]. *)
Definition Qltb (x y : Q) : bool := negb (Qle_bool y x).

Definition truncate (x : Q) : Z := Z.quot (Qnum x) (Z.pos (Qden x)).

Inductive MouseAction : Type := MouseActionPress | MouseActionRelease | MouseActionMotion.

Inductive MouseButton : Type :=
| MouseButtonNone | MouseButtonLeft | MouseButtonMiddle | MouseButtonRight
| MouseButtonWheelUp | MouseButtonWheelDown.

(** A [tea.Msg]: the messages of bubbletea that [Update] inspects, the four
    messages of package app, and [foreignMsg] for every other message (those
    the widgets send to themselves).  [KeyMsg] carries [msg.String()]. *)
Inductive Msg : Type :=
| MouseMsg (Action : MouseAction) (Button : MouseButton) (X Y : Z)
| WindowSizeMsg (Width Height : Z)
| KeyMsg (key : string)
| tickMsg
| quotesMsg (quotes : list Quote) (err : option error)
| historyMsg (symbol : string) (tr : TimeRange) (data : list Candle) (err : option error)
| retryHistoryMsg (symbol : string) (tr : TimeRange)
| foreignMsg (tag : string).

Definition pressedLeft (a : MouseAction) (b : MouseButton) : bool :=
  match a, b with MouseActionPress, MouseButtonLeft => true | _, _ => false end.

(** ** internal/ui/watchlist *)

Module Watchlist.

Record item : Type := { symbol : string; price : Q; changePct : Q }.

(** The list widget of the bubbles library, by the operations the
    watchlist calls on it.  A command of a widget is opaque to the program:
    [None] is a nil [tea.Cmd], [Some tag] a command of the widget's own. *)
Class ListWidget (L : Type) : Type := {
  list_New : list item → L;
  list_Items : L → list item;
  list_SetItems : list item → L → L;
  list_SelectedItem : L → option item;
  list_Select : Z → L → L;
  list_Height : L → Z;
  list_Page : L → Z;
  list_PerPage : L → Z;
  list_SetSize : Z → Z → L → L;
  list_Update : Msg → L → L * option string
}.

Section Model.

Context {L : Type} `{!ListWidget L}.

Record Model : Type := { list_ : L; width : Z; height : Z }.

Definition New (symbols : list string) : Model :=
  {| list_ := list_New (map (λ s, {| symbol := s; price := 0%Q; changePct := 0%Q |}) symbols);
     width := 0; height := 0 |}.

(** The click of [Update]: lines 124-148. *)
Definition click (m : Model) (X Y : Z) : L :=
  if (X >=? 0) && (X <? width m) && (Y >=? 0) && (Y <? height m) then
    let listHeight := list_Height (list_ m) in
    if (listHeight >? 0) && (listHeight <=? height m) then
      let topOffset := Z.quot (height m - listHeight) 2 in
      let topOffset := if topOffset <? 0 then 0 else topOffset in
      if (Y >=? topOffset) && (Y <? topOffset + listHeight) then
        let localIndex := Y - topOffset in
        let index := localIndex + list_Page (list_ m) * list_PerPage (list_ m) in
        if (index >=? 0) && (index <? Z.of_nat (length (list_Items (list_ m))))
        then list_Select index (list_ m)
        else list_ m
      else list_ m
    else list_ m
  else list_ m.

Definition Update (msg : Msg) (m : Model) : Model * option string :=
  let l :=
    match msg with
    | MouseMsg a b X Y => if pressedLeft a b then click m X Y else list_ m
    | _ => list_ m
    end in
  let '(l, cmd) := list_Update msg l in
  ({| list_ := l; width := width m; height := height m |}, cmd).

Definition SetSize (w h : Z) (m : Model) : Model :=
  {| list_ := list_SetSize (w - 4) (h - 2) (list_ m); width := w; height := h |}.

(** [qmap] of [UpdateQuotes]: a later quote of a symbol replaces an
    earlier one. *)
Definition quoteMap (quotes : list Quote) : gmap string Quote :=
  foldl (λ qmap q, <[Symbol q := q]> qmap) ∅ quotes.

Definition UpdateQuotes (quotes : list Quote) (m : Model) : Model :=
  let qmap := quoteMap quotes in
  let updated :=
    map (λ curr,
           match qmap !! symbol curr with
           | Some q => {| symbol := symbol curr; price := Price q; changePct := ChangePct q |}
           | None => curr
           end) (list_Items (list_ m)) in
  {| list_ := list_SetItems updated (list_ m); width := width m; height := height m |}.

(** The loop of [UpdatePriceChange] over the rows: the first row of the
    symbol is rewritten and the loop breaks. *)
Fixpoint updateRows (sym : string) (currentPrice startPrice : Q) (items : list item)
  : list item :=
  match items with
  | [] => []
  | curr :: rest =>
      if String.eqb (symbol curr) sym then
        {| symbol := symbol curr;
           price := currentPrice;
           changePct := if Qltb 0 startPrice
                        then (((currentPrice - startPrice) / startPrice) * 100)%Q
                        else changePct curr |} :: rest
      else curr :: updateRows sym currentPrice startPrice rest
  end.

Definition UpdatePriceChange (sym : string) (currentPrice startPrice : Q) (m : Model)
  : Model :=
  {| list_ := list_SetItems (updateRows sym currentPrice startPrice (list_Items (list_ m)))
                           (list_ m);
     width := width m; height := height m |}.

Definition SelectedSymbol (m : Model) : string :=
  match list_SelectedItem (list_ m) with
  | Some it => symbol it
  | None => ""
  end.

End Model.

Arguments Model L : clear implicits.

(** The quote that [UpdateQuotes] uses for a symbol: the last one of the
    symbol in the slice. *)
Definition lastQuote (sym : string) (quotes : list Quote) : option Quote :=
  last (List.filter (λ q, String.eqb (Symbol q) sym) quotes).

(** *** The symbol column of [delegate.Render] (lines 61-76) *)

(** [symW], from the width of the list. *)
Definition symWidth (totalW : Z) : Z :=
  let symW := 14 in
  let priceW := 12 in
  let pctW := 9 in
  if totalW >? 40 then Z.min 20 (totalW - priceW - pctW - 2) else symW.

(** [s[:k]] on the bytes of a string: [None] is the panic of a bound out
    of range. *)
Definition slicePrefix (s : string) (k : Z) : option string :=
  if (0 <=? k) && (k <=? Z.of_nat (String.length s))
  then Some (String.substring 0 (Z.to_nat k) s) else None.

(** The symbol as it is printed: cut to [symW - 1] bytes and an ellipsis
    when it is longer than [symW] bytes. *)
Definition shownSymbol (totalW : Z) (sym : string) : option string :=
  let symW := symWidth totalW in
  if Z.of_nat (String.length sym) >? symW
  then (λ cut, cut +:+ "…") <$> slicePrefix sym (symW - 1)
  else Some sym.

End Watchlist.

(** ** internal/ui/chart/chart.go *)

Module Chart.

Inductive ChartType : Type := ChartLine | ChartArea | ChartCandle.

Record Model : Type := {
  width : Z;
  height : Z;
  symbol : string;
  timeRange : TimeRange;
  chartType : ChartType;
  data : list Candle;
  loading : bool;
  err : option error;
  stale : bool;
  retryAfter : Z
}.

Definition New : Model :=
  {| width := 0; height := 0; symbol := ""; timeRange := Range24H;
     chartType := ChartLine; data := []; loading := false; err := None;
     stale := false; retryAfter := 0 |}.

(** [Update] returns the model and a nil command. *)
Definition Update (msg : Msg) (m : Model) : Model * option string := (m, None).

Definition SetSize (w h : Z) (m : Model) : Model :=
  {| width := w; height := h; symbol := symbol m; timeRange := timeRange m;
     chartType := chartType m; data := data m; loading := loading m; err := err m;
     stale := stale m; retryAfter := retryAfter m |}.

Definition SetData (sym : string) (tr : TimeRange) (d : list Candle) (m : Model) : Model :=
  {| width := width m; height := height m; symbol := sym; timeRange := tr;
     chartType := chartType m; data := d; loading := false; err := None;
     stale := false; retryAfter := 0 |}.

Definition SetStale (d : Z) (m : Model) : Model :=
  {| width := width m; height := height m; symbol := symbol m; timeRange := timeRange m;
     chartType := chartType m; data := data m; loading := false; err := None;
     stale := true; retryAfter := d |}.

Definition SetLoading (b : bool) (m : Model) : Model :=
  {| width := width m; height := height m; symbol := symbol m; timeRange := timeRange m;
     chartType := chartType m; data := data m; loading := b; err := err m;
     stale := stale m; retryAfter := retryAfter m |}.

Definition SetError (e : error) (m : Model) : Model :=
  {| width := width m; height := height m; symbol := symbol m; timeRange := timeRange m;
     chartType := chartType m; data := data m; loading := false; err := Some e;
     stale := false; retryAfter := retryAfter m |}.

Definition CycleChartType (m : Model) : Model :=
  {| width := width m; height := height m; symbol := symbol m; timeRange := timeRange m;
     chartType := match chartType m with
                  | ChartLine => ChartArea
                  | ChartArea => ChartCandle
                  | ChartCandle => ChartLine
                  end;
     data := data m; loading := loading m; err := err m;
     stale := stale m; retryAfter := retryAfter m |}.

(** What [View] puts in the pane. *)
Inductive content : Type :=
| Loading
| ErrorText (e : error)
| NoData
| Rendered.

Definition View (m : Model) : content :=
  if loading m then Loading
  else match err m with
       | Some e => ErrorText e
       | None => match data m with [] => NoData | _ => Rendered end
       end.

(** The size of the canvas of [render]: [None] is the text of a pane that
    is too small. *)
Definition canvas (m : Model) : option (Z * Z) :=
  let chartH := height m - 8 in
  let chartW := width m - 14 in
  if (chartW <? 10) || (chartH <? 4) then None else Some (chartW, chartH).

(** *** The scaling step of [render] (lines 116-138) *)

(** One step of the loop over [closes] that finds [minP] and [maxP]. *)
Definition scanStep (b : Q * Q) (p : Q) : Q * Q :=
  (if Qltb 0 p && Qltb p (fst b) then p else fst b,
   if Qltb (snd b) p then p else snd b).

(** [minP, maxP := closes[0], closes[0]] and the loop; an empty series
    has no [closes[0]]. *)
Definition bounds (closes : list Q) : option (Q * Q) :=
  match closes with
  | [] => None
  | c0 :: _ => Some (fold_left scanStep closes (c0, c0))
  end.

Record scaling : Type := { minP : Q; maxP : Q; spread : Q }.

(** The spread before padding: lines 132-135. *)
Definition rawSpread (b : Q * Q) : Q :=
  let spread := (snd b - fst b)%Q in
  if Qeq_bool spread 0 then (snd b * (1 # 100))%Q else spread.

(** Lines 136-138. *)
Definition pad (b : Q * Q) : scaling :=
  let spread := rawSpread b in
  let minP := (fst b - spread * (5 # 100))%Q in
  let maxP := (snd b + spread * (5 # 100))%Q in
  {| minP := minP; maxP := maxP; spread := (maxP - minP)%Q |}.

Definition closesOf (d : list Candle) : list Q := map Close d.

Definition scale (d : list Candle) : option scaling := pad <$> bounds (closesOf d).

(** [toRow] (lines 180-189).  The division is Go's on a non-zero spread;
    on a zero spread Go divides by zero and this definition does not follow
    it. *)
Definition toRow (chartH : Z) (sc : scaling) (price : Q) : Z :=
  let r := truncate ((maxP sc - price) / spread sc * inject_Z (chartH - 1))%Q in
  let r := if r <? 0 then 0 else r in
  if r >=? chartH then chartH - 1 else r.

(** *** Candle mode (lines 236-282) *)

Definition candlesPerCol (n chartW : Z) : Z := Z.max 1 (Z.quot n chartW).

(** The loop over [i := start; i < end] on [high] and [low]. *)
Definition highStep (high : Q) (c : Candle) : Q :=
  if Qltb high (High c) then High c else high.

Definition lowStep (low : Q) (c : Candle) : Q :=
  if Qltb (Low c) low && Qltb 0 (Low c) then Low c else low.

(** [m.data[start:end]]. *)
Definition bucket (d : list Candle) (start end_ : Z) : list Candle :=
  take (Z.to_nat (end_ - start)) (drop (Z.to_nat start) d).

Record ohlc : Type := { open : Q; close : Q; high : Q; low : Q; isUp : bool }.

(** The aggregate of the column [col]: [None] when the loop over the
    columns has ended ([start >= n]). *)
Definition aggregate (d : list Candle) (chartW col : Z) : option ohlc :=
  let n := Z.of_nat (length d) in
  let start := col * candlesPerCol n chartW in
  let end_ := Z.min (start + candlesPerCol n chartW) n in
  if start >=? n then None
  else
    match d !! Z.to_nat start, d !! Z.to_nat (end_ - 1) with
    | Some first, Some last =>
        let open := Open first in
        let close := Close last in
        Some {| open := open;
                close := close;
                high := fold_left highStep (bucket d start end_) (High first);
                low := fold_left lowStep (bucket d start end_) (Low first);
                isUp := Qle_bool open close |}
    | _, _ => None
    end.

(** The cell of row [r] in the column of an aggregate: the wick from
    [rowHigh] to [rowLow], overwritten by the body between the rows of open
    and close. *)
Inductive glyph : Type := Blank | Wick | BodyUp | BodyDown.

Definition cell (chartH : Z) (sc : scaling) (a : ohlc) (r : Z) : glyph * bool :=
  let rowHigh := toRow chartH sc (high a) in
  let rowLow := toRow chartH sc (low a) in
  let rowOpen := toRow chartH sc (open a) in
  let rowClose := toRow chartH sc (close a) in
  let bodyTop := Z.min rowOpen rowClose in
  let bodyBot := Z.max rowOpen rowClose in
  if (bodyTop <=? r) && (r <=? bodyBot)
  then (if isUp a then BodyUp else BodyDown, isUp a)
  else if (rowHigh <=? r) && (r <=? rowLow) then (Wick, isUp a)
  else (Blank, true).

(** The strictly positive lows of a bucket, and the least of a non-empty
    list of prices. *)
Definition positiveLows (b : list Candle) : list Q :=
  List.filter (Qltb 0) (map Low b).

Definition Qminimum (x : Q) (l : list Q) : Q :=
  fold_left (λ m y, if Qltb y m then y else m) l x.

(** *** Sampling and the sparkline (lines 192-201 and 326-374) *)

(** The source index of column [col]: [int(float64(col) * step)] with
    [step = float64(n) / float64(chartW)], held below [n]. *)
Definition sampleIndex (n chartW col : Z) : Z :=
  let step := (inject_Z n / inject_Z chartW)%Q in
  let idx := truncate (inject_Z col * step)%Q in
  if idx >=? n then n - 1 else idx.

(** The least and the greatest price of the sparkline, and the index of
    the block of a price among the eight blocks. *)
Definition sparkStep (b : Q * Q) (p : Q) : Q * Q :=
  (if Qltb p (fst b) then p else fst b, if Qltb (snd b) p then p else snd b).

Definition sparkBounds (prices : list Q) : option (Q * Q) :=
  match prices with
  | [] => None
  | p0 :: _ => Some (fold_left sparkStep prices (p0, p0))
  end.

Definition blockIndex (b : Q * Q) (p : Q) : Z :=
  let rng := (snd b - fst b)%Q in
  let rng := if Qeq_bool rng 0 then 1%Q else rng in
  let norm := ((p - fst b) / rng)%Q in
  let bi := truncate (norm * inject_Z (8 - 1))%Q in
  Z.max 0 (Z.min bi (8 - 1)).

(** The candles of the column [col] in candle mode. *)
Definition columnBucket (d : list Candle) (chartW col : Z) : list Candle :=
  let n := Z.of_nat (length d) in
  let start := col * candlesPerCol n chartW in
  let end_ := Z.min (start + candlesPerCol n chartW) n in
  bucket d start end_.

End Chart.

(** ** internal/app/app.go *)

Module App.

Import Watchlist.

(** The help overlay and the footer, packages of the program that the
    orchestrator only calls: taken by their operations.  [footer_SetStatus]
    is given the flag and the error (the time of the call is left out). *)
Class HelpWidget (H : Type) : Type := {
  help_New : H;
  help_Visible : H → bool;
  help_Update : Msg → H → H * option string;
  help_Toggle : H → H;
  help_SetSize : Z → Z → H → H
}.

Class FooterWidget (F : Type) : Type := {
  footer_New : string → F;
  footer_SetStatus : bool → option error → F → F;
  footer_SetTimeRange : TimeRange → F → F;
  footer_SetSize : Z → Z → F → F
}.

(** A [tea.Cmd] as data.  [fetchHistory s tr] and [fetchQuotes] are the
    closures of the methods of these names; [fetchHistoryAtRun s] is a
    closure of [fetchAllHistory], which reads the time range when it runs;
    [Tick d msg] delivers [msg] after [d]; [foreignCmd] is a command of a
    widget. *)
Inductive Cmd : Type :=
| EnterAltScreen
| Quit
| fetchQuotes
| fetchHistory (symbol : string) (tr : TimeRange)
| fetchHistoryAtRun (symbol : string)
| waitForTick
| Tick (d : Z) (msg : Msg)
| foreignCmd (tag : string).

(** [tea.Batch] drops nil commands. *)
Definition cmdOf (c : option string) : list Cmd :=
  match c with Some tag => [foreignCmd tag] | None => [] end.

Definition isFetchHistory (c : Cmd) : bool :=
  match c with fetchHistory _ _ | fetchHistoryAtRun _ => true | _ => false end.

Definition isFetch (c : Cmd) : bool :=
  match c with fetchQuotes | fetchHistory _ _ | fetchHistoryAtRun _ => true | _ => false end.

Definition isTick (c : Cmd) : bool :=
  match c with Tick _ _ => true | _ => false end.

(** [sym + "|" + string(tr)]. *)
Definition cacheKey (sym : string) (tr : TimeRange) : string :=
  sym +:+ "|" +:+ TimeRange_string tr.

(** The fields of [models.AppConfig] that [New] and the commands read. *)
Record AppConfig : Type := {
  Symbols : list string;
  DefaultRange : string;
  Provider : string
}.

Section Orchestrator.

Context {L H F : Type} `{!ListWidget L} `{!HelpWidget H} `{!FooterWidget F}.

Record AppModel : Type := {
  cfg : AppConfig;
  help : H;
  watchlist : Watchlist.Model L;
  chart : Chart.Model;
  footer : F;
  width : Z;
  height : Z;
  timeRange : TimeRange;
  lastQuotes : list Quote;
  lastHistory : gmap string (list Candle);
  err : option error
}.

Definition set_help (h : H) (m : AppModel) : AppModel :=
  {| cfg := cfg m; help := h; watchlist := watchlist m; chart := chart m;
     footer := footer m; width := width m; height := height m;
     timeRange := timeRange m; lastQuotes := lastQuotes m;
     lastHistory := lastHistory m; err := err m |}.

Definition set_watchlist (wl : Watchlist.Model L) (m : AppModel) : AppModel :=
  {| cfg := cfg m; help := help m; watchlist := wl; chart := chart m;
     footer := footer m; width := width m; height := height m;
     timeRange := timeRange m; lastQuotes := lastQuotes m;
     lastHistory := lastHistory m; err := err m |}.

Definition set_chart (c : Chart.Model) (m : AppModel) : AppModel :=
  {| cfg := cfg m; help := help m; watchlist := watchlist m; chart := c;
     footer := footer m; width := width m; height := height m;
     timeRange := timeRange m; lastQuotes := lastQuotes m;
     lastHistory := lastHistory m; err := err m |}.

Definition set_footer (f : F) (m : AppModel) : AppModel :=
  {| cfg := cfg m; help := help m; watchlist := watchlist m; chart := chart m;
     footer := f; width := width m; height := height m;
     timeRange := timeRange m; lastQuotes := lastQuotes m;
     lastHistory := lastHistory m; err := err m |}.

Definition set_size (w h : Z) (m : AppModel) : AppModel :=
  {| cfg := cfg m; help := help m; watchlist := watchlist m; chart := chart m;
     footer := footer m; width := w; height := h;
     timeRange := timeRange m; lastQuotes := lastQuotes m;
     lastHistory := lastHistory m; err := err m |}.

Definition set_timeRange (tr : TimeRange) (m : AppModel) : AppModel :=
  {| cfg := cfg m; help := help m; watchlist := watchlist m; chart := chart m;
     footer := footer m; width := width m; height := height m;
     timeRange := tr; lastQuotes := lastQuotes m;
     lastHistory := lastHistory m; err := err m |}.

Definition set_lastQuotes (q : list Quote) (m : AppModel) : AppModel :=
  {| cfg := cfg m; help := help m; watchlist := watchlist m; chart := chart m;
     footer := footer m; width := width m; height := height m;
     timeRange := timeRange m; lastQuotes := q;
     lastHistory := lastHistory m; err := err m |}.

Definition set_lastHistory (c : gmap string (list Candle)) (m : AppModel) : AppModel :=
  {| cfg := cfg m; help := help m; watchlist := watchlist m; chart := chart m;
     footer := footer m; width := width m; height := height m;
     timeRange := timeRange m; lastQuotes := lastQuotes m;
     lastHistory := c; err := err m |}.

Definition set_err (e : option error) (m : AppModel) : AppModel :=
  {| cfg := cfg m; help := help m; watchlist := watchlist m; chart := chart m;
     footer := footer m; width := width m; height := height m;
     timeRange := timeRange m; lastQuotes := lastQuotes m;
     lastHistory := lastHistory m; err := e |}.

Definition New (c : AppConfig) : AppModel :=
  let tr :=
    if String.eqb (DefaultRange c) "1H" then Range1H
    else if String.eqb (DefaultRange c) "7D" then Range7D
    else if String.eqb (DefaultRange c) "30D" then Range30D
    else Range24H in
  {| cfg := c; help := help_New; watchlist := Watchlist.New (Symbols c);
     chart := Chart.New; footer := footer_New (Provider c);
     width := 0; height := 0; timeRange := tr; lastQuotes := [];
     lastHistory := ∅; err := None |}.

Definition fetchAllHistory (m : AppModel) : list Cmd :=
  map fetchHistoryAtRun (Symbols (cfg m)).

Definition Init (m : AppModel) : list Cmd :=
  [EnterAltScreen; fetchQuotes] ++ fetchAllHistory m ++ [waitForTick].

(** The pair that is displayed: the selected symbol at the active range. *)
Definition selected (m : AppModel) (sym : string) (tr : TimeRange) : bool :=
  String.eqb (SelectedSymbol (watchlist m)) sym && bool_decide (timeRange m = tr).

Definition cycleTimeRange (m : AppModel) : AppModel :=
  let next :=
    match timeRange m with
    | Range1H => Range24H
    | Range24H => Range7D
    | Range7D => Range30D
    | Range30D => Range1H
    end in
  let m := set_timeRange next m in
  set_footer (footer_SetTimeRange (timeRange m) (footer m)) m.

Definition setTimeRange (tr : TimeRange) (m : AppModel) : AppModel :=
  if bool_decide (timeRange m = tr) then m
  else
    let m := set_timeRange tr m in
    set_footer (footer_SetTimeRange (timeRange m) (footer m)) m.

Definition refreshCurrentChart (m : AppModel) : AppModel * list Cmd :=
  let sel := SelectedSymbol (watchlist m) in
  if String.eqb sel "" then (m, [])
  else (set_chart (Chart.SetLoading true (chart m)) m, [fetchHistory sel (timeRange m)]).

Definition loadCurrentChart (m : AppModel) : AppModel * list Cmd :=
  let sel := SelectedSymbol (watchlist m) in
  if String.eqb sel "" then (m, [])
  else
    match lastHistory m !! cacheKey sel (timeRange m) with
    | Some cached => (set_chart (Chart.SetData sel (timeRange m) cached (chart m)) m, [])
    | None =>
        (set_chart (Chart.SetLoading true (chart m)) m, [fetchHistory sel (timeRange m)])
    end.

(** Lines 278-296: what every message that is not answered by a [return]
    goes through. *)
Definition forward (msg : Msg) (m : AppModel) (cmds : list Cmd) : AppModel * list Cmd :=
  let oldSel := SelectedSymbol (watchlist m) in
  let '(wl, cmd) := Watchlist.Update msg (watchlist m) in
  let m := set_watchlist wl m in
  let cmds := cmds ++ cmdOf cmd in
  let newSel := SelectedSymbol (watchlist m) in
  let '(m, cmds) :=
    if negb (String.eqb oldSel newSel) && negb (String.eqb newSel "") then
      match lastHistory m !! cacheKey newSel (timeRange m) with
      | Some cached =>
          (set_chart (Chart.SetData newSel (timeRange m) cached (chart m)) m, cmds)
      | None =>
          (set_chart (Chart.SetLoading true (chart m)) m,
           cmds ++ [fetchHistory newSel (timeRange m)])
      end
    else (m, cmds) in
  let '(c, cmd) := Chart.Update msg (chart m) in
  (set_chart c m, cmds ++ cmdOf cmd).

(** Lines 129-146: a message that arrives while the help overlay is
    visible. *)
Definition updateHelp (msg : Msg) (m : AppModel) : AppModel * list Cmd :=
  let '(h, cmd) := help_Update msg (help m) in
  let m := set_help h m in
  let cmds := cmdOf cmd in
  if negb (help_Visible (help m)) then (m, cmds)
  else
    match msg with
    | WindowSizeMsg w h =>
        let m := set_size w h m in
        (set_help (help_SetSize w h (help m)) m, cmds)
    | _ => (m, cmds)
    end.

Definition resize (w h : Z) (m : AppModel) : AppModel :=
  let m := set_size w h m in
  let footerHeight := 1 in
  let mainHeight := height m - footerHeight in
  let wlWidth := truncate (inject_Z (width m) * (28 # 100))%Q in
  let wlWidth := if wlWidth <? 30 then 30 else wlWidth in
  let wlWidth := if wlWidth >? 45 then 45 else wlWidth in
  let chartWidth := width m - wlWidth in
  let m := set_watchlist (Watchlist.SetSize wlWidth mainHeight (watchlist m)) m in
  let m := set_chart (Chart.SetSize chartWidth mainHeight (chart m)) m in
  let m := set_footer (footer_SetSize (width m) footerHeight (footer m)) m in
  set_help (help_SetSize (width m) (height m) (help m)) m.

Definition onQuotes (quotes : list Quote) (e : option error) (m : AppModel)
  : AppModel * list Cmd :=
  match e with
  | Some _ =>
      let m := set_err e m in
      (set_footer (footer_SetStatus false e (footer m)) m, [])
  | None =>
      let m := set_lastQuotes quotes m in
      let m := set_watchlist (Watchlist.UpdateQuotes quotes (watchlist m)) m in
      let m := set_footer (footer_SetStatus true None (footer m)) m in
      let m := set_err None m in
      let sel := SelectedSymbol (watchlist m) in
      if negb (String.eqb sel "") then
        match lastHistory m !! cacheKey sel (timeRange m) with
        | Some _ => (m, [])
        | None =>
            (set_chart (Chart.SetLoading true (chart m)) m,
             [fetchHistory sel (timeRange m)])
        end
      else (m, [])
  end.

(** The history message with a nil error: lines 264-274. *)
Definition onHistory (sym : string) (tr : TimeRange) (d : list Candle) (m : AppModel)
  : AppModel :=
  let m := set_lastHistory (<[cacheKey sym tr := d]> (lastHistory m)) m in
  let m := if selected m sym tr
           then set_chart (Chart.SetData sym tr d (chart m)) m else m in
  match d, last d with
  | c0 :: _ :: _, Some cl =>
      let startPrice := Close c0 in
      let endPrice := Close cl in
      set_watchlist (Watchlist.UpdatePriceChange sym endPrice startPrice (watchlist m)) m
  | _, _ => m
  end.

(** The rate-limited history message: lines 246-260. *)
Definition onRateLimited (sym : string) (tr : TimeRange) (e : error) (d : Z) (m : AppModel)
  : AppModel * list Cmd :=
  let m :=
    match lastHistory m !! cacheKey sym tr with
    | Some cached =>
        if selected m sym tr then
          let m := set_chart (Chart.SetData sym tr cached (chart m)) m in
          set_chart (Chart.SetStale d (chart m)) m
        else m
    | None => set_chart (Chart.SetError e (chart m)) m
    end in
  (m, [Tick d (retryHistoryMsg sym tr)]).

Definition onKey (key : string) (m : AppModel) : AppModel * list Cmd :=
  if String.eqb key "q" || String.eqb key "ctrl+c" then (m, [Quit])
  else if String.eqb key "?" then (set_help (help_Toggle (help m)) m, [])
  else if String.eqb key "tab" then loadCurrentChart (cycleTimeRange m)
  else if String.eqb key "1" then loadCurrentChart (setTimeRange Range1H m)
  else if String.eqb key "2" then loadCurrentChart (setTimeRange Range24H m)
  else if String.eqb key "3" then loadCurrentChart (setTimeRange Range7D m)
  else if String.eqb key "4" then loadCurrentChart (setTimeRange Range30D m)
  else if String.eqb key "r" then
    let '(m, c) := refreshCurrentChart m in (m, fetchQuotes :: c)
  else if String.eqb key "c" then (set_chart (Chart.CycleChartType (chart m)) m, [])
  else forward (KeyMsg key) m [].

Definition Update (msg : Msg) (m : AppModel) : AppModel * list Cmd :=
  if help_Visible (help m) then updateHelp msg m
  else
    match msg with
    | MouseMsg a b X Y =>
        if pressedLeft a b && (Y =? height m - 1)
        then refreshCurrentChart (cycleTimeRange m)
        else forward msg m []
    | WindowSizeMsg w h => forward msg (resize w h m) []
    | KeyMsg key => onKey key m
    | tickMsg => forward msg m [fetchQuotes; waitForTick]
    | quotesMsg quotes e =>
        let '(m, cmds) := onQuotes quotes e m in forward msg m cmds
    | retryHistoryMsg sym tr =>
        let m := if selected m sym tr
                 then set_chart (Chart.SetLoading true (chart m)) m else m in
        forward msg m [fetchHistory sym tr]
    | historyMsg sym tr d (Some e) =>
        match errors_As_RateLimit e with
        | Some retryAfter => onRateLimited sym tr e retryAfter m
        | None => forward msg (set_chart (Chart.SetError e (chart m)) m) []
        end
    | historyMsg sym tr d None => forward msg (onHistory sym tr d m) []
    | foreignMsg _ => forward msg m []
    end.

(** The event loop: the messages are processed one at a time, in order. *)
Definition run (msgs : list Msg) (m : AppModel) : AppModel :=
  foldl (λ m msg, fst (Update msg m)) m msgs.

End Orchestrator.

Arguments AppModel L H F : clear implicits.

End App.

(** ** Plain widgets

    Instances of the three widget interfaces on which the orchestrator can
    be run: a list with a cursor that the arrow keys move, a help overlay
    that is a flag, a footer without state. *)

Module Plain.

Import Watchlist App.

Record cursorList : Type := { rows : list item; cursor : nat }.

Definition moveCursor (msg : Msg) (l : cursorList) : cursorList :=
  match msg with
  | KeyMsg key =>
      if (String.eqb key "down" || String.eqb key "j")
         && bool_decide (S (cursor l) < length (rows l))%nat
      then {| rows := rows l; cursor := S (cursor l) |}
      else if String.eqb key "up" || String.eqb key "k"
      then {| rows := rows l; cursor := pred (cursor l) |}
      else l
  | _ => l
  end.

#[global] Instance cursorList_widget : ListWidget cursorList := {|
  list_New := λ items, {| rows := items; cursor := 0 |};
  list_Items := rows;
  list_SetItems := λ items l, {| rows := items; cursor := cursor l |};
  list_SelectedItem := λ l, rows l !! cursor l;
  list_Select := λ i l, {| rows := rows l; cursor := Z.to_nat i |};
  list_Height := λ l, Z.of_nat (length (rows l));
  list_Page := λ _, 0;
  list_PerPage := λ l, Z.of_nat (length (rows l));
  list_SetSize := λ _ _ l, l;
  list_Update := λ msg l, (moveCursor msg l, None)
|}.

#[global] Instance flag_help : HelpWidget bool := {|
  help_New := false;
  help_Visible := λ h, h;
  help_Update := λ msg h,
    match msg with
    | KeyMsg key => (if String.eqb key "?" || String.eqb key "esc" then false else h, None)
    | _ => (h, None)
    end;
  help_Toggle := negb;
  help_SetSize := λ _ _ h, h
|}.

#[global] Instance unit_footer : FooterWidget unit := {|
  footer_New := λ _, tt;
  footer_SetStatus := λ _ _ f, f;
  footer_SetTimeRange := λ _ f, f;
  footer_SetSize := λ _ _ f, f
|}.

Abbreviation State := (AppModel cursorList bool unit).

Definition candle (p : Q) : Candle := {| Open := p; High := p; Low := p; Close := p |}.

(** The watchlist of two symbols before any quote. *)
Definition freshList : Watchlist.Model cursorList := Watchlist.New ["AAPL"; "BTC-USD"].

(** A five point series of AAPL and a two point series at another range. *)
Definition aapl24 : list Candle :=
  [candle 100; candle 101; candle 102; candle 103; candle 104].

Definition aapl7 : list Candle := [candle 90; candle 104].

Definition config : AppConfig :=
  {| Symbols := ["AAPL"; "BTC-USD"]; DefaultRange := "24H"; Provider := "simulator" |}.

(** Twenty candles whose first has no low (a zero), for a canvas of ten
    columns: two candles per column. *)
Definition gapped : list Candle :=
  {| Open := 10; High := 12; Low := 0; Close := 11 |}
  :: {| Open := 11; High := 13; Low := 5; Close := 12 |}
  :: repeat (candle 10) 18.

(** The program after start, a resize to 100x24 and the arrival of both
    series of AAPL: AAPL is selected at 24H and shown from the cache. *)
Definition warm : State :=
  run [WindowSizeMsg 100 24;
       historyMsg "AAPL" Range24H aapl24 None;
       historyMsg "AAPL" Range7D aapl7 None] (New config).

(** The same with the help overlay open. *)
Definition warmHelp : State := run [KeyMsg "?"] warm.

End Plain.

(* ================================================================= *)
(** * Properties *)

(** ** The fetch client *)

Section FetchFacts.

Import Http.

Variable ParseDuration : string → option Z.
Variable w : world.
Variable opts : fetchOptions.

Lemma reaches_le (n m : nat) : (m ≤ n)%nat → reaches w n → reaches w m.
Proof.
  intros Hle (Hreq & Hctx & Hretry). repeat split; auto.
  - intros i Hi. apply Hctx. lia.
  - intros i Hi. apply Hretry. lia.
Qed.

Lemma events_at (n : nat) :
  (if Z.of_nat n >? 0 then eventsBefore opts n ++ [Slept (delay opts (Z.of_nat n))]
   else eventsBefore opts n) ++ [Sent] = schedule opts n.
Proof.
  destruct n as [|m]; [reflexivity|].
  replace (Z.of_nat (S m) >? 0) with true by (symmetry; apply Z.gtb_lt; lia).
  cbn [eventsBefore schedule]. by rewrite <- app_assoc.
Qed.

Lemma not_cancelled (n : nat) :
  reaches w n → (Z.of_nat n >? 0) && ctxDone w (Z.of_nat n) = false.
Proof.
  intros (_ & Hctx & _). destruct n as [|m]; [reflexivity|].
  rewrite Hctx by lia. apply andb_false_r.
Qed.

(** One iteration whose outcome is retryable goes on with the next
    attempt. *)
Lemma loop_retry (fuel n : nat) (e : error) :
  reaches w n →
  retryable (roundTrip w (Z.of_nat n)) = Some e →
  loop ParseDuration w opts (S fuel) (Z.of_nat n) (causeBefore w n) (eventsBefore opts n)
  = loop ParseDuration w opts fuel (Z.of_nat (S n)) (Some e) (schedule opts n).
Proof.
  intros Hr He. cbn [loop]. rewrite (not_cancelled n Hr).
  destruct Hr as (Hreq & _ & _). rewrite Hreq, events_at.
  replace (Z.of_nat n + 1) with (Z.of_nat (S n)) by lia.
  unfold retryable in He.
  destruct (roundTrip w (Z.of_nat n)) as [e'|s h e'|s h b]; try congruence.
  unfold IsRetryable, StatusOK, StatusTooManyRequests in *.
  destruct (s >=? 500) eqn:E500; [|discriminate].
  apply Z.geb_le in E500.
  assert ((s =? 429) = false) as -> by (apply Z.eqb_neq; lia).
  assert ((s =? 200) = false) as -> by (apply Z.eqb_neq; lia).
  cbn in *. congruence.
Qed.

(** After [n] retryable failures the loop stands at attempt [n]. *)
Lemma loop_failures (n fuel : nat) :
  reaches w n →
  loop ParseDuration w opts (n + fuel) 0 None []
  = loop ParseDuration w opts fuel (Z.of_nat n) (causeBefore w n) (eventsBefore opts n).
Proof.
  revert fuel. induction n as [|n IH]; intros fuel Hr; [reflexivity|].
  replace (S n + fuel)%nat with (n + S fuel)%nat by lia.
  rewrite IH by (eapply reaches_le; [|exact Hr]; lia).
  assert (reaches w n) as Hn by (eapply reaches_le; [|exact Hr]; lia).
  destruct Hr as (_ & _ & Hretry).
  destruct (Hretry n) as [e He]; [lia|].
  rewrite (loop_retry fuel n e Hn He).
  cbn [causeBefore eventsBefore]. by rewrite He.
Qed.

(** An attempt within the budget that is reached is the head of the
    remaining loop. *)
Lemma fetch_at (n : nat) :
  Z.of_nat n ≤ MaxRetries opts →
  reaches w n →
  ∃ fuel : nat,
    fetch_with ParseDuration w opts
    = loop ParseDuration w opts (S fuel) (Z.of_nat n) (causeBefore w n) (eventsBefore opts n).
Proof.
  intros Hn Hr. exists (Z.to_nat (MaxRetries opts) - n)%nat.
  unfold fetch_with.
  replace (Z.to_nat (MaxRetries opts + 1)) with (n + S (Z.to_nat (MaxRetries opts) - n))%nat by lia.
  by apply loop_failures.
Qed.

(** What the iteration of a reached attempt returns when the response is
    received whole with a status below 500. *)
Lemma loop_received (fuel n : nat) (s : Z) (h : string) (b : bytes) :
  reaches w n →
  roundTrip w (Z.of_nat n) = Received s h b →
  s < 500 →
  loop ParseDuration w opts (S fuel) (Z.of_nat n) (causeBefore w n) (eventsBefore opts n)
  = (if s =? StatusTooManyRequests then inr (RateLimitError (retryAfterOf ParseDuration h))
     else if s =? StatusOK then inl b else inr (httpError s),
     schedule opts n).
Proof.
  intros Hr Hrt Hs. cbn [loop]. rewrite (not_cancelled n Hr).
  destruct Hr as (Hreq & _ & _). rewrite Hreq, events_at, Hrt.
  unfold IsRetryable.
  assert ((s >=? 500) = false) as -> by (rewrite Z.geb_leb; apply Z.leb_gt; lia).
  destruct (s =? StatusTooManyRequests); [done|].
  by destruct (s =? StatusOK).
Qed.

(** C1. A response received with status 429 at an attempt that is reached
    ends the call at that attempt with a [RateLimitError]: the events are
    those of the attempts up to it and end with its request, so nothing is
    slept or sent after it.  The error carries the duration that
    [ParseDuration] reads from the Retry-After value followed by "s", and 60
    seconds when the header is absent (empty) or does not parse. *)
Theorem fetch_rate_limited_returns_at_once (n : nat) (h : string) (b : bytes) :
  Z.of_nat n ≤ MaxRetries opts →
  reaches w n →
  roundTrip w (Z.of_nat n) = Received StatusTooManyRequests h b →
  fetch_with ParseDuration w opts
  = (inr (RateLimitError (retryAfterOf ParseDuration h)), schedule opts n)
  ∧ last (schedule opts n) = Some Sent
  ∧ requests (schedule opts n) = S n
  ∧ (h = ""%string → retryAfterOf ParseDuration h = 60 * Second)
  ∧ (ParseDuration (h +:+ "s") = None → retryAfterOf ParseDuration h = 60 * Second)
  ∧ (∀ d : Z, h ≠ ""%string → ParseDuration (h +:+ "s") = Some d →
       retryAfterOf ParseDuration h = d).
Proof.
  intros Hn Hr Hrt.
  destruct (fetch_at n Hn Hr) as [fuel ->].
  rewrite (loop_received fuel n _ h b Hr Hrt) by (unfold StatusTooManyRequests; lia).
  rewrite Z.eqb_refl. split; [done|].
  split. { destruct n; cbn [schedule]; [done|]. by rewrite last_app. }
  split.
  { clear. induction n as [|n IH]; [done|].
    unfold requests in *. cbn [schedule].
    rewrite List.filter_app, length_app, IH. cbn. lia. }
  unfold retryAfterOf. repeat split.
  - by intros ->.
  - intros ->. by destruct (String.eqb h "").
  - intros d Hh ->. destruct (String.eqb_spec h ""); [done|done].
Qed.

(** C3 (as amended). A response received with status 200 at an attempt that
    is reached makes the call return its body; one received with any other
    status below 500 that is not 429 (201 and 204 among them) makes it
    return the [httpError] of that status at that attempt, with no further
    sleep or request. *)
Theorem fetch_status_200_or_fatal (n : nat) (s : Z) (h : string) (b : bytes) :
  Z.of_nat n ≤ MaxRetries opts →
  reaches w n →
  roundTrip w (Z.of_nat n) = Received s h b →
  (s = StatusOK → fetch_with ParseDuration w opts = (inl b, schedule opts n))
  ∧ (s ≠ StatusOK → s ≠ StatusTooManyRequests → s < 500 →
     fetch_with ParseDuration w opts = (inr (httpError s), schedule opts n)).
Proof.
  intros Hn Hr Hrt.
  destruct (fetch_at n Hn Hr) as [fuel ->]. split.
  - intros ->. by rewrite (loop_received fuel n _ h b Hr Hrt).
  - intros H200 H429 H500. rewrite (loop_received fuel n _ h b Hr Hrt H500).
    apply Z.eqb_neq in H200, H429. by rewrite H200, H429.
Qed.

End FetchFacts.

(** The witness of C1 (scenario A): a 429 with [Retry-After: 30] on the
    first attempt. *)
Lemma fetch_rate_limited_witness :
  Http.fetch_with Http.parseWholeSeconds
    (Http.scripted [Http.Received 429 "30" []]) Http.defaultFetchOptions
  = (inr (RateLimitError (30 * Second)), [Http.Sent]).
Proof.
  refine (proj1 (fetch_rate_limited_returns_at_once Http.parseWholeSeconds
                   (Http.scripted [Http.Received 429 "30" []])
                   Http.defaultFetchOptions 0 "30" [] _ _ _)).
  - vm_compute. discriminate.
  - repeat split; intros; lia.
  - reflexivity.
Defined.

(** The witness of C3 as amended: a 200 and a 404 on the first attempt. *)
Lemma fetch_status_witness :
  Http.fetch_with Http.parseWholeSeconds
    (Http.scripted [Http.Received 200 "" [Byte.x7b; Byte.x7d]]) Http.defaultFetchOptions
  = (inl [Byte.x7b; Byte.x7d], [Http.Sent])
  ∧ Http.fetch_with Http.parseWholeSeconds
      (Http.scripted [Http.Received 404 "" []]) Http.defaultFetchOptions
    = (inr (httpError 404), [Http.Sent]).
Proof.
  split.
  - refine (proj1 (fetch_status_200_or_fatal Http.parseWholeSeconds
                     (Http.scripted [Http.Received 200 "" [Byte.x7b; Byte.x7d]])
                     Http.defaultFetchOptions 0 200 "" _ _ _ _) _).
    + vm_compute. discriminate.
    + repeat split; intros; lia.
    + reflexivity.
    + reflexivity.
  - refine (proj2 (fetch_status_200_or_fatal Http.parseWholeSeconds
                     (Http.scripted [Http.Received 404 "" []])
                     Http.defaultFetchOptions 0 404 "" [] _ _ _) _ _ _).
    + vm_compute. discriminate.
    + repeat split; intros; lia.
    + reflexivity.
    + unfold Http.StatusOK. lia.
    + unfold Http.StatusTooManyRequests. lia.
    + lia.
Defined.

(** The counterexample to C3 as stated: 204 is a 2xx status, and the call
    returns an error for it instead of the body. *)
Lemma fetch_204_is_an_error :
  200 ≤ 204 < 300
  ∧ Http.fetch Http.parseWholeSeconds (Http.scripted [Http.Received 204 "" []]) None
    = (inr (httpError 204), [Http.Sent])
  ∧ fst (Http.fetch Http.parseWholeSeconds (Http.scripted [Http.Received 204 "" []]) None)
    ≠ inl [].
Proof. split; [lia|]. split; [reflexivity|]. vm_compute. discriminate. Qed.

(** C2. With the default options, in a world where the request can be built
    and no sleep is cut short: when the attempts before attempt [n ≤ 3] fail
    retryably and attempt [n] is answered by a 200, the call returns that
    body after [n + 1] requests, having slept 500ms, 1000ms, 2000ms before
    attempts 1, 2, 3; when all four attempts fail retryably it returns the
    error that wraps the cause of the last one, after four requests. *)
Theorem fetch_default_backoff (ParseDuration : string → option Z) (w : Http.world) :
  Http.newRequest w = None →
  (∀ i : nat, (0 < i)%nat → Http.ctxDone w (Z.of_nat i) = false) →
  (∀ (n : nat) (h : string) (body : bytes),
     (n ≤ 3)%nat →
     (∀ i : nat, (i < n)%nat → is_Some (Http.retryable (Http.roundTrip w (Z.of_nat i)))) →
     Http.roundTrip w (Z.of_nat n) = Http.Received Http.StatusOK h body →
     Http.fetch ParseDuration w None = (inl body, take (2 * n + 1) Http.defaultBackoff)
     ∧ Http.requests (take (2 * n + 1) Http.defaultBackoff) = S n)
  ∧ (∀ cause : error,
     (∀ i : nat, (i < 4)%nat → is_Some (Http.retryable (Http.roundTrip w (Z.of_nat i)))) →
     Http.retryable (Http.roundTrip w 3) = Some cause →
     Http.fetch ParseDuration w None = (inr (afterRetries 3 cause), Http.defaultBackoff)
     ∧ Http.requests Http.defaultBackoff = 4%nat).
Proof.
  intros Hreq Hctx. split.
  - intros n h body Hn Hretry Hok.
    assert (Http.reaches w n) as Hr by (repeat split; auto; intros; apply Hctx; lia).
    unfold Http.fetch. cbn [default].
    destruct (fetch_at ParseDuration w Http.defaultFetchOptions n) as [fuel ->];
      [cbn; lia|done|].
    rewrite (loop_received ParseDuration w _ fuel n _ h body Hr Hok)
      by (unfold Http.StatusOK; lia).
    cbn [Z.eqb Http.StatusOK Http.StatusTooManyRequests Pos.eqb].
    do 4 (destruct n as [|n]; [split; reflexivity|]). lia.
  - intros cause Hretry Hcause.
    assert (Http.reaches w 4) as Hr by (repeat split; auto; intros; apply Hctx; lia).
    unfold Http.fetch, Http.fetch_with. cbn [default].
    change (Z.to_nat (Http.MaxRetries Http.defaultFetchOptions + 1)) with (4 + 0)%nat.
    rewrite (loop_failures ParseDuration w _ 4 0 Hr).
    cbn [Http.loop Http.causeBefore Http.eventsBefore].
    change (Z.of_nat 3) with 3. rewrite Hcause. split; reflexivity.
Qed.

(** The witness of C2 (scenario B): 503, 503, 200, and four times 503. *)
Lemma fetch_default_backoff_witness :
  Http.fetch Http.parseWholeSeconds
    (Http.scripted [Http.Received 503 "" []; Http.Received 503 "" [];
                    Http.Received 200 "" [Byte.x6f; Byte.x6b]]) None
  = (inl [Byte.x6f; Byte.x6b],
     [Http.Sent; Http.Slept (500 * Millisecond); Http.Sent;
      Http.Slept (1000 * Millisecond); Http.Sent])
  ∧ Http.fetch Http.parseWholeSeconds
      (Http.scripted [Http.Received 503 "" []; Http.Received 503 "" [];
                      Http.Received 503 "" []; Http.Received 502 "" []]) None
    = (inr (afterRetries 3 (httpError 502)), Http.defaultBackoff).
Proof.
  split.
  - refine (proj1 (proj1 (fetch_default_backoff Http.parseWholeSeconds
                     (Http.scripted [Http.Received 503 "" []; Http.Received 503 "" [];
                                     Http.Received 200 "" [Byte.x6f; Byte.x6b]])
                     eq_refl (λ _ _, eq_refl)) 2%nat "" [Byte.x6f; Byte.x6b] _ _ _)).
    + lia.
    + intros i Hi. destruct i as [|[|i]]; [by eexists|by eexists|lia].
    + reflexivity.
  - refine (proj1 (proj2 (fetch_default_backoff Http.parseWholeSeconds
                     (Http.scripted [Http.Received 503 "" []; Http.Received 503 "" [];
                                     Http.Received 503 "" []; Http.Received 502 "" []])
                     eq_refl (λ _ _, eq_refl)) (httpError 502) _ _)).
    + intros i Hi. destruct i as [|[|[|[|i]]]]; [by eexists..|lia].
    + reflexivity.
Defined.

(** *** Further properties of [fetch] *)

Section FetchMore.

Import Http.

Variable ParseDuration : string → option Z.
Variable w : world.
Variable opts : fetchOptions.

Lemma loop_success (fuel : nat) (a : Z) (last : option error) (tr0 tr : list event)
    (body : bytes) :
  loop ParseDuration w opts fuel a last tr0 = (inl body, tr) →
  ∃ (n : Z) (h : string),
    a ≤ n < a + Z.of_nat fuel ∧ roundTrip w n = Received StatusOK h body.
Proof.
  revert a last tr0. induction fuel as [|fuel IH]; intros a last tr0 Hl.
  { cbn in Hl. by destruct last. }
  cbn [loop] in Hl.
  destruct ((a >? 0) && ctxDone w a); [done|].
  destruct (newRequest w); [done|].
  destruct (roundTrip w a) as [e|s h e|s h b] eqn:Hrt.
  - apply IH in Hl as (n & h & Hn & Hr). exists n, h. split; [lia|done].
  - apply IH in Hl as (n & h' & Hn & Hr). exists n, h'. split; [lia|done].
  - destruct (s =? StatusTooManyRequests); [done|].
    destruct (s =? StatusOK) eqn:E200; cbn [negb] in Hl.
    + injection Hl as <- _. apply Z.eqb_eq in E200 as ->.
      exists a, h. split; [lia|done].
    + destruct (IsRetryable s); [|done].
      apply IH in Hl as (n & h' & Hn & Hr). exists n, h'. split; [lia|done].
Qed.

(** X1. A body is returned only for a response received with status 200 at
    one of the attempts [0 .. MaxRetries], and it is the body of that
    response. *)
Theorem fetch_body_comes_from_a_200 (body : bytes) (tr : list event) :
  fetch_with ParseDuration w opts = (inl body, tr) →
  ∃ (n : Z) (h : string),
    0 ≤ n ≤ MaxRetries opts ∧ roundTrip w n = Received StatusOK h body.
Proof.
  unfold fetch_with. intros Hl.
  apply loop_success in Hl as (n & h & Hn & Hr). exists n, h. split; [lia|done].
Qed.

Lemma loop_budget (fuel : nat) (a : Z) (last : option error) (tr0 : list event) :
  0 ≤ a →
  (requests (loop ParseDuration w opts fuel a last tr0).2 ≤ requests tr0 + fuel)%nat
  ∧ (sleeps (loop ParseDuration w opts fuel a last tr0).2
     ≤ sleeps tr0 + (if a >? 0 then fuel else pred fuel))%nat.
Proof.
  revert a last tr0. induction fuel as [|fuel IH]; intros a last tr0 Ha.
  { cbn [loop]. destruct last; cbn [snd]; destruct (a >? 0); lia. }
  cbn [loop].
  destruct ((a >? 0) && ctxDone w a); [cbn [snd]; destruct (a >? 0); lia|].
  assert (requests ((if a >? 0 then tr0 ++ [Slept (delay opts a)] else tr0) ++ [Sent])
          = S (requests tr0)
          ∧ sleeps ((if a >? 0 then tr0 ++ [Slept (delay opts a)] else tr0) ++ [Sent])
            = (sleeps tr0 + (if a >? 0 then 1 else 0))%nat
          ∧ sleeps (if a >? 0 then tr0 ++ [Slept (delay opts a)] else tr0)
            = (sleeps tr0 + (if a >? 0 then 1 else 0))%nat
          ∧ requests (if a >? 0 then tr0 ++ [Slept (delay opts a)] else tr0)
            = requests tr0) as (Hreq & Hsl & Hsl' & Hreq').
  { unfold requests, sleeps. destruct (a >? 0);
      rewrite ?List.filter_app, ?length_app; cbn; lia. }
  assert ((a + 1 >? 0) = true) as Hpos by (apply Z.gtb_lt; lia).
  assert (∀ e : option error,
            (requests (loop ParseDuration w opts fuel (a + 1) e
               ((if a >? 0 then tr0 ++ [Slept (delay opts a)] else tr0) ++ [Sent])).2
             ≤ requests tr0 + S fuel)%nat
            ∧ (sleeps (loop ParseDuration w opts fuel (a + 1) e
                 ((if a >? 0 then tr0 ++ [Slept (delay opts a)] else tr0) ++ [Sent])).2
               ≤ sleeps tr0 + (if a >? 0 then S fuel else fuel))%nat) as Hnext.
  { intros e. destruct (IH (a + 1) e
      ((if a >? 0 then tr0 ++ [Slept (delay opts a)] else tr0) ++ [Sent])) as [H1 H2]; [lia|].
    rewrite Hpos in H2. rewrite Hreq in H1. rewrite Hsl in H2.
    destruct (a >? 0); split; lia. }
  cbn [pred].
  destruct (newRequest w); [cbn [snd]; rewrite Hreq', Hsl'; destruct (a >? 0); lia|].
  destruct (roundTrip w a) as [e|s h e|s h b]; [apply Hnext|apply Hnext|].
  destruct (s =? StatusTooManyRequests);
    [cbn [snd]; rewrite Hreq, Hsl; destruct (a >? 0); lia|].
  destruct (negb (s =? StatusOK));
    [|cbn [snd]; rewrite Hreq, Hsl; destruct (a >? 0); lia].
  destruct (IsRetryable s); [apply Hnext|].
  cbn [snd]; rewrite Hreq, Hsl; destruct (a >? 0); lia.
Qed.

(** X2. Whatever the transport answers, a call sends at most [MaxRetries + 1]
    requests and sleeps at most [MaxRetries] times. *)
Theorem fetch_stays_in_budget :
  (requests (fetch_with ParseDuration w opts).2 ≤ Z.to_nat (MaxRetries opts + 1))%nat
  ∧ (sleeps (fetch_with ParseDuration w opts).2 ≤ Z.to_nat (MaxRetries opts))%nat.
Proof.
  unfold fetch_with.
  destruct (loop_budget (Z.to_nat (MaxRetries opts + 1)) 0 None []) as [Hr Hs]; [lia|].
  cbn in Hr, Hs. split; lia.
Qed.

(** X3. A context that is done during the sleep before attempt [n + 1] ends
    the call with the context's error: the events are those of the attempts
    [0 .. n], no request follows. *)
Theorem fetch_cancelled_in_backoff (n : nat) (e : error) :
  Z.of_nat n < MaxRetries opts →
  reaches w n →
  retryable (roundTrip w (Z.of_nat n)) = Some e →
  ctxDone w (Z.of_nat (S n)) = true →
  fetch_with ParseDuration w opts = (inr ctxError, schedule opts n).
Proof.
  intros Hn Hr He Hdone. unfold fetch_with.
  replace (Z.to_nat (MaxRetries opts + 1))
    with (n + S (S (Z.to_nat (MaxRetries opts) - n - 1)))%nat by lia.
  rewrite (loop_failures ParseDuration w opts n _ Hr).
  rewrite (loop_retry ParseDuration w opts _ n e Hr He).
  cbn [loop]. rewrite Hdone.
  by replace (Z.of_nat (S n) >? 0) with true by (symmetry; apply Z.gtb_lt; lia).
Qed.

(** X4. The calls that send nothing: a negative [MaxRetries] skips the loop and
    gives the error "fetch failed"; a request that cannot be built gives its
    error at the first attempt. *)
Theorem fetch_without_a_request :
  (MaxRetries opts < 0 → fetch_with ParseDuration w opts = (inr fetchFailed, []))
  ∧ (∀ e : error,
       0 ≤ MaxRetries opts → newRequest w = Some e →
       fetch_with ParseDuration w opts = (inr e, [])).
Proof.
  unfold fetch_with. split.
  - intros Hneg. by replace (Z.to_nat (MaxRetries opts + 1)) with 0%nat by lia.
  - intros e Hpos Hreq.
    replace (Z.to_nat (MaxRetries opts + 1)) with (S (Z.to_nat (MaxRetries opts))) by lia.
    cbn [loop]. cbn. by rewrite Hreq.
Qed.

(** X5. For any options: when every attempt [0 .. MaxRetries] fails retryably
    and no sleep is cut short, the call returns the error that wraps the
    cause of the last attempt, after [MaxRetries + 1] requests. *)
Theorem fetch_exhausts_any_budget (k : nat) (cause : error) :
  MaxRetries opts = Z.of_nat k →
  reaches w k →
  retryable (roundTrip w (Z.of_nat k)) = Some cause →
  fetch_with ParseDuration w opts
  = (inr (afterRetries (MaxRetries opts) cause), schedule opts k)
  ∧ requests (schedule opts k) = S k.
Proof.
  intros Hk Hr Hc. unfold fetch_with. split.
  - replace (Z.to_nat (MaxRetries opts + 1)) with (k + 1)%nat by lia.
    rewrite (loop_failures ParseDuration w opts k 1 Hr).
    by rewrite (loop_retry ParseDuration w opts 0 k cause Hr Hc).
  - clear. induction k as [|k IH]; [done|].
    unfold requests in *. cbn [schedule].
    rewrite List.filter_app, length_app, IH. cbn. lia.
Qed.

(** X6. The delay before attempt [a] is [BaseDelay * 2^(a-1)] as long as that
    product fits 63 bits, and is zero from attempt 65 on, where the shift
    leaves no bit. *)
Theorem delay_doubles_until_it_wraps (a : Z) :
  (1 ≤ a → 0 ≤ BaseDelay opts → BaseDelay opts * 2 ^ (a - 1) < 2 ^ 63 →
   delay opts a = BaseDelay opts * 2 ^ (a - 1))
  ∧ (65 ≤ a → delay opts a = 0).
Proof.
  unfold delay. rewrite Z.shiftl_1_l. split.
  - intros Ha Hb Hfit.
    assert (0 < 2 ^ (a - 1)) as Hpow by (apply Z.pow_pos_nonneg; lia).
    assert (2 ^ (a - 1) < 2 ^ 63 ∨ BaseDelay opts = 0) as [Hsmall| ->] by nia.
    + assert (wrap64 (2 ^ (a - 1)) = 2 ^ (a - 1)) as ->.
      { unfold wrap64. rewrite Z.mod_small; lia. }
      unfold wrap64. rewrite Z.mod_small; nia.
    + reflexivity.
  - intros Ha.
    assert (wrap64 (2 ^ (a - 1)) = 0) as ->; [|by rewrite Z.mul_0_r].
    unfold wrap64.
    replace (2 ^ (a - 1)) with (2 ^ (a - 65) * 2 ^ 64)
      by (rewrite <- Z.pow_add_r by lia; f_equal; lia).
    rewrite Z.add_comm, Z.mod_add by lia. reflexivity.
Qed.

End FetchMore.

(** A world whose context is done during the first sleep. *)
Lemma fetch_cancelled_in_backoff_witness :
  Http.fetch_with Http.parseWholeSeconds
    {| Http.newRequest := None;
       Http.ctxDone := λ _, true;
       Http.roundTrip := λ _, Http.Received 503 "" [] |} Http.defaultFetchOptions
  = (inr ctxError, [Http.Sent]).
Proof.
  refine (fetch_cancelled_in_backoff Http.parseWholeSeconds _ Http.defaultFetchOptions
            0 (httpError 503) _ _ _ _).
  - vm_compute. reflexivity.
  - repeat split; intros; lia.
  - reflexivity.
  - reflexivity.
Defined.

Lemma fetch_body_comes_from_a_200_witness :
  ∃ (n : Z) (h : string),
    0 ≤ n ≤ 3
    ∧ Http.roundTrip (Http.scripted [Http.Received 503 "" []; Http.Received 200 "" [Byte.x6f]]) n
      = Http.Received 200 h [Byte.x6f].
Proof.
  refine (fetch_body_comes_from_a_200 Http.parseWholeSeconds
            (Http.scripted [Http.Received 503 "" []; Http.Received 200 "" [Byte.x6f]])
            Http.defaultFetchOptions [Byte.x6f]
            [Http.Sent; Http.Slept (500 * Millisecond); Http.Sent] _).
  reflexivity.
Defined.

Lemma fetch_without_a_request_witness :
  Http.fetch_with Http.parseWholeSeconds (Http.scripted [])
    {| Http.MaxRetries := -1; Http.BaseDelay := 500 * Millisecond |}
  = (inr fetchFailed, [])
  ∧ Http.fetch_with Http.parseWholeSeconds
      {| Http.newRequest := Some (opaqueError "missing protocol scheme");
         Http.ctxDone := λ _, false;
         Http.roundTrip := λ _, Http.Received 200 "" [] |} Http.defaultFetchOptions
    = (inr (opaqueError "missing protocol scheme"), []).
Proof.
  split.
  - refine (proj1 (fetch_without_a_request Http.parseWholeSeconds _ _) _).
    cbn. lia.
  - refine (proj2 (fetch_without_a_request Http.parseWholeSeconds _ _) _ _ _).
    + cbn. lia.
    + reflexivity.
Defined.

Lemma fetch_exhausts_any_budget_witness :
  Http.fetch_with Http.parseWholeSeconds (Http.scripted [Http.Received 500 "" []])
    {| Http.MaxRetries := 1; Http.BaseDelay := 100 * Millisecond |}
  = (inr (afterRetries 1 (opaqueError "connection refused")),
     [Http.Sent; Http.Slept (100 * Millisecond); Http.Sent]).
Proof.
  refine (proj1 (fetch_exhausts_any_budget Http.parseWholeSeconds
                   (Http.scripted [Http.Received 500 "" []])
                   {| Http.MaxRetries := 1; Http.BaseDelay := 100 * Millisecond |}
                   1 (opaqueError "connection refused") _ _ _)).
  - reflexivity.
  - split; [reflexivity|]. split; intros i Hi.
    + reflexivity.
    + destruct i as [|i]; [by eexists|lia].
  - reflexivity.
Defined.

Lemma delay_doubles_until_it_wraps_witness :
  Http.delay Http.defaultFetchOptions 3 = 500 * Millisecond * 2 ^ (3 - 1)
  ∧ Http.delay Http.defaultFetchOptions 70 = 0.
Proof.
  split.
  - refine (proj1 (delay_doubles_until_it_wraps Http.defaultFetchOptions 3) _ _ _).
    + lia.
    + vm_compute. discriminate.
    + vm_compute. reflexivity.
  - refine (proj2 (delay_doubles_until_it_wraps Http.defaultFetchOptions 70) _). lia.
Defined.

(** ** Prices *)

Lemma Qltb_lt (x y : Q) : Qltb x y = true ↔ (x < y)%Q.
Proof.
  unfold Qltb. rewrite negb_true_iff. split.
  - intros Hb. apply Qnot_le_lt. intros Hle.
    apply Qle_bool_iff in Hle. congruence.
  - intros Hlt. destruct (Qle_bool y x) eqn:E; [|done].
    apply Qle_bool_iff in E. exfalso. by eapply Qlt_not_le.
Qed.

Lemma Qltb_ge (x y : Q) : Qltb x y = false ↔ (y <= x)%Q.
Proof.
  unfold Qltb. rewrite negb_false_iff. apply Qle_bool_iff.
Qed.

(** ** The watchlist *)

Section WatchlistFacts.

Import Watchlist.

Context {L : Type} `{!ListWidget L}.

Lemma updateRows_length (sym : string) (cur start : Q) (items : list item) :
  length (updateRows sym cur start items) = length items.
Proof.
  induction items as [|curr rest IH]; [done|].
  cbn [updateRows]. destruct (String.eqb (symbol curr) sym); cbn; congruence.
Qed.

Lemma updateRows_other (sym : string) (cur start : Q) (items : list item) (i : nat) (it : item) :
  items !! i = Some it → symbol it ≠ sym →
  updateRows sym cur start items !! i = Some it.
Proof.
  revert i. induction items as [|curr rest IH]; intros i Hi Hne; [done|].
  cbn [updateRows]. destruct (String.eqb_spec (symbol curr) sym) as [Heq|Hneq].
  - destruct i as [|i]; cbn in *; [|done]. congruence.
  - destruct i as [|i]; cbn in *; [done|]. by apply IH.
Qed.

Lemma updateRows_after (sym : string) (cur start : Q) (items : list item) (i j : nat)
    (it it0 : item) :
  items !! i = Some it → (j < i)%nat → items !! j = Some it0 → symbol it0 = sym →
  updateRows sym cur start items !! i = Some it.
Proof.
  revert i j. induction items as [|curr rest IH]; intros i j Hi Hji Hj Hsym; [done|].
  cbn [updateRows]. destruct (String.eqb_spec (symbol curr) sym) as [Heq|Hneq].
  - destruct i as [|i]; [lia|done].
  - destruct i as [|i]; [lia|]. destruct j as [|j]; cbn in *; [congruence|].
    apply (IH i j); [done|lia|done|done].
Qed.

Lemma updateRows_first (sym : string) (cur start : Q) (items : list item) (i : nat) (it : item) :
  items !! i = Some it → symbol it = sym →
  (∀ (j : nat) (it0 : item), (j < i)%nat → items !! j = Some it0 → symbol it0 ≠ sym) →
  updateRows sym cur start items !! i
  = Some {| symbol := symbol it; price := cur;
            changePct := if Qltb 0 start
                         then (((cur - start) / start) * 100)%Q else changePct it |}.
Proof.
  revert i. induction items as [|curr rest IH]; intros i Hi Hsym Hfirst; [done|].
  cbn [updateRows]. destruct (String.eqb_spec (symbol curr) sym) as [Heq|Hneq].
  - destruct i as [|i].
    + apply (inj Some) in Hi. subst it. reflexivity.
    + exfalso. by apply (Hfirst 0%nat curr); [lia| |].
  - destruct i as [|i].
    + apply (inj Some) in Hi. congruence.
    + apply (IH i); [done|done|].
      intros j it0 Hj Hit0. apply (Hfirst (S j) it0); [lia|done].
Qed.

(** C10. [UpdatePriceChange] hands the list widget the rows rewritten by
    its loop: as many rows as before; the first row of the symbol has its
    price set to the current price, and its percent change recomputed as
    (current - start) / start * 100 exactly when the start price is strictly
    positive, and kept otherwise; every row of another symbol, and every
    later row of the same symbol, is unchanged. *)
Theorem UpdatePriceChange_guarded (m : Watchlist.Model L) (sym : string) (cur start : Q) :
  let items := list_Items (list_ m) in
  let items' := updateRows sym cur start items in
  list_ (UpdatePriceChange sym cur start m) = list_SetItems items' (list_ m)
  ∧ length items' = length items
  ∧ (∀ (i : nat) (it : item),
       items !! i = Some it → symbol it = sym →
       (∀ (j : nat) (it0 : item), (j < i)%nat → items !! j = Some it0 → symbol it0 ≠ sym) →
       ∃ it' : item,
         items' !! i = Some it' ∧ symbol it' = sym ∧ price it' = cur
         ∧ ((0 < start)%Q → changePct it' = (((cur - start) / start) * 100)%Q)
         ∧ (¬ (0 < start)%Q → changePct it' = changePct it))
  ∧ (∀ (i : nat) (it : item),
       items !! i = Some it → symbol it ≠ sym → items' !! i = Some it)
  ∧ (∀ (i j : nat) (it it0 : item),
       items !! i = Some it → (j < i)%nat → items !! j = Some it0 → symbol it0 = sym →
       items' !! i = Some it).
Proof.
  intros items items'. split; [done|]. split; [apply updateRows_length|].
  split; [|split].
  - intros i it Hi Hsym Hfirst. eexists. split; [by apply updateRows_first|].
    cbn. split; [done|]. split; [done|]. split.
    + intros Hpos. apply Qltb_lt in Hpos. by rewrite Hpos.
    + intros Hneg. destruct (Qltb 0 start) eqn:E; [|done].
      apply Qltb_lt in E. contradiction.
  - intros i it. apply updateRows_other.
  - intros i j it it0. apply updateRows_after.
Qed.

End WatchlistFacts.

(** Comparisons of integers that hold, as propositions. *)
Ltac boolZ :=
  repeat match goal with
         | H : (_ && _) = true |- _ => apply andb_true_iff in H as [? ?]
         | H : (_ >=? _) = true |- _ => apply Z.geb_le in H
         | H : (_ >? _) = true |- _ => apply Z.gtb_lt in H
         | H : (_ <? _) = true |- _ => apply Z.ltb_lt in H
         | H : (_ <=? _) = true |- _ => apply Z.leb_le in H
         end.

(** *** Further properties of the watchlist *)

Section WatchlistMore.

Import Watchlist.

Context {L : Type} `{!ListWidget L}.

Lemma quoteMap_snoc (quotes : list Quote) (q : Quote) :
  quoteMap (quotes ++ [q]) = <[Symbol q := q]> (quoteMap quotes).
Proof. unfold quoteMap. by rewrite foldl_app. Qed.

Lemma quoteMap_lookup (quotes : list Quote) (sym : string) :
  quoteMap quotes !! sym = lastQuote sym quotes.
Proof.
  induction quotes as [|q quotes IH] using rev_ind; [done|].
  rewrite quoteMap_snoc. unfold lastQuote in *. rewrite List.filter_app. cbn [List.filter].
  destruct (String.eqb_spec (Symbol q) sym) as [<-|Hne].
  - by rewrite lookup_insert_eq, last_snoc.
  - by rewrite lookup_insert_ne, app_nil_r.
Qed.

(** X7. [UpdateQuotes] hands the list widget as many rows as before, with
    the same symbols in the same order: a row whose symbol has quotes takes
    price and percent change from the last quote of that symbol, a row whose
    symbol has none is unchanged. *)
Theorem UpdateQuotes_last_quote_wins (m : Watchlist.Model L) (quotes : list Quote) :
  ∃ updated : list item,
    list_ (UpdateQuotes quotes m) = list_SetItems updated (list_ m)
    ∧ length updated = length (list_Items (list_ m))
    ∧ map symbol updated = map symbol (list_Items (list_ m))
    ∧ ∀ (i : nat) (it : item),
        list_Items (list_ m) !! i = Some it →
        ∃ it' : item,
          updated !! i = Some it'
          ∧ match lastQuote (symbol it) quotes with
            | Some q => price it' = Price q ∧ changePct it' = ChangePct q
            | None => it' = it
            end.
Proof.
  eexists. split; [reflexivity|]. split; [apply length_map|]. split.
  - rewrite map_map. apply map_ext. intros it. by destruct (quoteMap quotes !! symbol it).
  - intros i it Hi. eexists. split.
    + change (map ?f ?l) with (f <$> l). rewrite list_lookup_fmap, Hi. reflexivity.
    + rewrite quoteMap_lookup. by destruct (lastQuote (symbol it) quotes).
Qed.

(** X8. The loop of [UpdatePriceChange] keeps the symbols of the rows, changes
    nothing when no row has the symbol, and gives the same rows when it is
    run a second time with the same prices. *)
Theorem updateRows_settles (sym : string) (cur start : Q) (items : list item) :
  map symbol (updateRows sym cur start items) = map symbol items
  ∧ (¬ In sym (map symbol items) → updateRows sym cur start items = items)
  ∧ updateRows sym cur start (updateRows sym cur start items)
    = updateRows sym cur start items.
Proof.
  induction items as [|curr rest (IHs & IHa & IHi)]; [done|].
  cbn [updateRows map]. destruct (String.eqb_spec (symbol curr) sym) as [Heq|Hne].
  - split; [done|]. split; [intros Hin; exfalso; apply Hin; by left|].
    cbn [updateRows symbol]. rewrite (proj2 (String.eqb_eq _ _) Heq).
    cbn [price changePct symbol]. by destruct (Qltb 0 start).
  - split; [cbn [map]; by rewrite IHs|].
    split. { intros Hin. rewrite IHa; [done|]. intros Hin'. apply Hin. by right. }
    cbn [updateRows]. rewrite (proj2 (String.eqb_neq _ _) Hne). by rewrite IHi.
Qed.

(** X9. A click selects a row of the list only with an index of the rows,
    and only when it falls inside the pane; every other click leaves the
    list as it is. *)
Theorem click_selects_within_the_rows (m : Watchlist.Model L) (X Y : Z) :
  (click m X Y = list_ m
   ∨ ∃ index : Z,
       0 ≤ index < Z.of_nat (length (list_Items (list_ m)))
       ∧ 0 ≤ X < Watchlist.width m ∧ 0 ≤ Y < Watchlist.height m
       ∧ click m X Y = list_Select index (list_ m))
  ∧ (¬ (0 ≤ X < Watchlist.width m ∧ 0 ≤ Y < Watchlist.height m) → click m X Y = list_ m).
Proof.
  unfold click. split.
  - repeat case_match; try (by left); right; eexists; boolZ;
      (split; [|split; [|split]]); [| | |done| | | |done]; lia.
  - intros Hout. case_match; [|done]. exfalso. apply Hout. boolZ. lia.
Qed.

(** X10. The symbol column never slices out of range: the width of the column
    is between 14 and 20, a symbol of at most that many bytes is printed
    whole, and a longer one is cut to its first [symW - 1] bytes followed by
    the three bytes of the ellipsis. *)
Theorem shownSymbol_never_panics (totalW : Z) (sym : string) :
  14 ≤ symWidth totalW ≤ 20
  ∧ (Z.of_nat (String.length sym) ≤ symWidth totalW → shownSymbol totalW sym = Some sym)
  ∧ (symWidth totalW < Z.of_nat (String.length sym) →
     shownSymbol totalW sym
     = Some (String.substring 0 (Z.to_nat (symWidth totalW - 1)) sym +:+ "…"))
  ∧ is_Some (shownSymbol totalW sym).
Proof.
  assert (14 ≤ symWidth totalW ≤ 20) as Hw.
  { unfold symWidth. destruct (totalW >? 40) eqn:E; [|lia]. apply Z.gtb_lt in E. lia. }
  assert (Z.of_nat (String.length sym) ≤ symWidth totalW → shownSymbol totalW sym = Some sym)
    as Hshort.
  { intros Hle. unfold shownSymbol. cbv zeta.
    by replace (Z.of_nat (String.length sym) >? symWidth totalW) with false
      by (symmetry; rewrite Z.gtb_ltb; apply Z.ltb_ge; lia). }
  assert (symWidth totalW < Z.of_nat (String.length sym) →
          shownSymbol totalW sym
          = Some (String.substring 0 (Z.to_nat (symWidth totalW - 1)) sym +:+ "…")) as Hlong.
  { intros Hlt. unfold shownSymbol, slicePrefix. cbv zeta.
    replace (Z.of_nat (String.length sym) >? symWidth totalW) with true
      by (symmetry; apply Z.gtb_lt; lia).
    replace (0 <=? symWidth totalW - 1) with true by (symmetry; apply Z.leb_le; lia).
    by replace (symWidth totalW - 1 <=? Z.of_nat (String.length sym)) with true
      by (symmetry; apply Z.leb_le; lia). }
  split; [done|]. split; [done|]. split; [done|].
  destruct (Z_le_gt_dec (Z.of_nat (String.length sym)) (symWidth totalW)).
  - rewrite Hshort by done. by eexists.
  - rewrite Hlong by lia. by eexists.
Qed.

End WatchlistMore.

Lemma updateRows_settles_witness :
  Watchlist.updateRows "MSFT" 10 5 (Plain.rows (Watchlist.list_ Plain.freshList))
  = Plain.rows (Watchlist.list_ Plain.freshList).
Proof.
  refine (proj1 (proj2 (updateRows_settles "MSFT" 10 5 _)) _).
  cbn. intros [H|[H|[]]]; discriminate H.
Defined.

Lemma click_selects_within_the_rows_witness :
  Watchlist.click (Watchlist.SetSize 30 23 Plain.freshList) (-1) 5
  = Watchlist.list_ (Watchlist.SetSize 30 23 Plain.freshList).
Proof.
  refine (proj2 (click_selects_within_the_rows
                   (Watchlist.SetSize 30 23 Plain.freshList) (-1) 5) _).
  cbn. lia.
Defined.

Lemma shownSymbol_never_panics_witness :
  Watchlist.shownSymbol 26 "BTC-USD" = Some "BTC-USD"%string
  ∧ Watchlist.shownSymbol 26 "A-VERY-LONG-SYMBOL"
    = Some (String.substring 0 13 "A-VERY-LONG-SYMBOL" +:+ "…").
Proof.
  split.
  - refine (proj1 (proj2 (shownSymbol_never_panics 26 "BTC-USD")) _). vm_compute. discriminate.
  - refine (proj1 (proj2 (proj2 (shownSymbol_never_panics 26 "A-VERY-LONG-SYMBOL"))) _).
    vm_compute. reflexivity.
Defined.

(** The witness of C10: AAPL's history goes from 100 to 110. *)
Lemma UpdatePriceChange_guarded_witness :
  ∃ it' : Watchlist.item,
    Watchlist.updateRows "AAPL" 110 100
      (Watchlist.list_Items (Watchlist.list_ Plain.freshList)) !! 0%nat = Some it'
    ∧ Watchlist.price it' = 110%Q
    ∧ Watchlist.changePct it' = (((110 - 100) / 100) * 100)%Q.
Proof.
  destruct (proj1 (proj2 (proj2
              (UpdatePriceChange_guarded Plain.freshList "AAPL" 110 100)))
              0%nat {| Watchlist.symbol := "AAPL"; Watchlist.price := 0;
                       Watchlist.changePct := 0 |})
    as (it' & Hrow & _ & Hprice & Hpct & _).
  - reflexivity.
  - reflexivity.
  - intros j it0 Hj. lia.
  - exists it'. split; [exact Hrow|]. split; [exact Hprice|].
    apply Hpct. reflexivity.
Defined.

(** ** The chart *)

Section ChartFacts.

Import Chart.

#[local] Open Scope Q_scope.

Lemma truncate_zero (x : Q) : x == 0 → truncate x = 0%Z.
Proof.
  unfold Qeq, truncate. cbn. intros Hx.
  replace (Qnum x) with 0%Z by lia. apply Z.quot_0_l. done.
Qed.

Lemma truncate_inject_Z (x : Q) (k : Z) : x == inject_Z k → truncate x = k.
Proof.
  unfold Qeq, truncate. cbn. intros Hx.
  replace (Qnum x) with (k * Z.pos (Qden x))%Z by lia.
  apply Z.quot_mul. done.
Qed.

Lemma scan_max (l : list Q) (b : Q * Q) :
  snd b <= snd (fold_left scanStep l b)
  ∧ (∀ p : Q, In p l → p <= snd (fold_left scanStep l b))
  ∧ (snd (fold_left scanStep l b) = snd b ∨ In (snd (fold_left scanStep l b)) l).
Proof.
  revert b. induction l as [|p l IH]; intros b.
  { cbn. split; [apply Qle_refl|]. split; [intros ? []|by left]. }
  cbn [fold_left]. destruct (IH (scanStep b p)) as (Hge & Hall & Hin).
  assert (snd b <= snd (scanStep b p) ∧ p <= snd (scanStep b p)) as [Hb Hp].
  { unfold scanStep. cbn [snd]. destruct (Qltb (snd b) p) eqn:E.
    - apply Qltb_lt in E. split; [by apply Qlt_le_weak|apply Qle_refl].
    - apply Qltb_ge in E. split; [apply Qle_refl|done]. }
  split; [by eapply Qle_trans|]. split.
  - intros q [<-|Hq]; [by eapply Qle_trans|by apply Hall].
  - destruct Hin as [Heq|Hin]; [|right; by right].
    rewrite Heq. unfold scanStep. cbn [snd].
    destruct (Qltb (snd b) p); [right; by left|by left].
Qed.

Lemma scan_min (l : list Q) (b : Q * Q) :
  fst (fold_left scanStep l b) <= fst b
  ∧ (∀ p : Q, In p l → 0 < p → fst (fold_left scanStep l b) <= p)
  ∧ (fst (fold_left scanStep l b) = fst b ∨ In (fst (fold_left scanStep l b)) l).
Proof.
  revert b. induction l as [|p l IH]; intros b.
  { cbn. split; [apply Qle_refl|]. split; [intros ? []|by left]. }
  cbn [fold_left]. destruct (IH (scanStep b p)) as (Hle & Hall & Hin).
  assert (fst (scanStep b p) <= fst b ∧ (0 < p → fst (scanStep b p) <= p)) as [Hb Hp].
  { unfold scanStep. cbn [fst].
    destruct (Qltb 0 p) eqn:E0; cbn [andb].
    - destruct (Qltb p (fst b)) eqn:E.
      + apply Qltb_lt in E. split; [by apply Qlt_le_weak|intros; apply Qle_refl].
      + apply Qltb_ge in E. split; [apply Qle_refl|done].
    - apply Qltb_ge in E0. split; [apply Qle_refl|].
      intros Hpos. exfalso. by eapply Qlt_not_le. }
  split; [by eapply Qle_trans|]. split.
  - intros q [<-|Hq] Hpos; [eapply Qle_trans; [exact Hle|by apply Hp]|by apply Hall].
  - destruct Hin as [Heq|Hin]; [|right; by right].
    rewrite Heq. unfold scanStep. cbn [fst].
    destruct (Qltb 0 p && Qltb p (fst b)); [right; by left|by left].
Qed.

Lemma bounds_ordered (closes : list Q) (b : Q * Q) :
  bounds closes = Some b → fst b <= snd b.
Proof.
  destruct closes as [|c0 l]; [done|]. intros [= <-].
  destruct (scan_min (c0 :: l) (c0, c0)) as (Hmin & _).
  destruct (scan_max (c0 :: l) (c0, c0)) as (Hmax & _).
  by eapply Qle_trans.
Qed.

Lemma rawSpread_cases (b : Q * Q) :
  (fst b == snd b ∧ rawSpread b = snd b * (1 # 100))
  ∨ (¬ fst b == snd b ∧ rawSpread b = snd b - fst b).
Proof.
  unfold rawSpread. cbv zeta. destruct (Qeq_bool (snd b - fst b) 0) eqn:E.
  - left. apply Qeq_bool_iff in E. split; [lra|done].
  - right. apply Qeq_bool_neq in E. split; [lra|done].
Qed.

(** C8. For a series with a first close, where [b] holds the bounds found
    by the scan (the greatest close, and the least of the first close and
    the strictly positive closes): equal bounds give the spread 1% of the
    maximum, different bounds their distance; both bounds are moved by 5% of
    that spread, outwards whenever the spread is not negative (it is
    negative only when all closes equal one negative value), and the spread
    is recomputed from the moved bounds; the recomputed spread is zero only
    when both bounds are zero, and whenever it is not zero the padded
    maximum is on row 0 and the padded minimum on row [chartH - 1]. *)
Theorem scaling_pads_and_anchors (closes : list Q) (b : Q * Q) (chartH : Z) :
  bounds closes = Some b →
  (0 < chartH)%Z →
  let sc := pad b in
  (In (snd b) closes ∧ ∀ p : Q, In p closes → p <= snd b)
  ∧ (In (fst b) closes ∧ fst b <= snd b ∧ ∀ p : Q, In p closes → 0 < p → fst b <= p)
  ∧ (fst b == snd b → rawSpread b = snd b * (1 # 100))
  ∧ (¬ fst b == snd b → rawSpread b = snd b - fst b)
  ∧ minP sc = fst b - rawSpread b * (5 # 100)
  ∧ maxP sc = snd b + rawSpread b * (5 # 100)
  ∧ spread sc = maxP sc - minP sc
  ∧ (0 <= rawSpread b → minP sc <= fst b ∧ snd b <= maxP sc)
  ∧ (rawSpread b < 0 → fst b == snd b ∧ snd b < 0)
  ∧ (spread sc == 0 ↔ fst b == 0 ∧ snd b == 0)
  ∧ (¬ spread sc == 0 →
     toRow chartH sc (maxP sc) = 0%Z ∧ toRow chartH sc (minP sc) = (chartH - 1)%Z).
Proof.
  intros Hb HH sc.
  pose proof (bounds_ordered closes b Hb) as Hord.
  destruct closes as [|c0 l]; [done|].
  assert (fold_left scanStep (c0 :: l) (c0, c0) = b) as Hfold by (by injection Hb).
  clear Hb.
  destruct (scan_max (c0 :: l) (c0, c0)) as (_ & Hmax & Hmaxin).
  destruct (scan_min (c0 :: l) (c0, c0)) as (_ & Hmin & Hminin).
  rewrite Hfold in Hmax, Hmaxin, Hmin, Hminin. cbn [fst snd] in Hmaxin, Hminin.
  split. { split; [|done]. destruct Hmaxin as [->|]; [by left|done]. }
  split. { split; [|done]. destruct Hminin as [->|]; [by left|done]. }
  split. { intros Heq. destruct (rawSpread_cases b) as [[_ ->]|[Hne _]]; [done|contradiction]. }
  split. { intros Hne. destruct (rawSpread_cases b) as [[Heq _]|[_ ->]]; [contradiction|done]. }
  split; [done|]. split; [done|]. split; [done|].
  split. { intros Hpos. subst sc. cbn [pad minP maxP]. split; lra. }
  split. { intros Hneg. destruct (rawSpread_cases b) as [[Heq Hr]|[_ Hr]];
           rewrite Hr in Hneg; [split; [done|lra]|lra]. }
  assert (spread sc == 0 ↔ fst b == 0 ∧ snd b == 0) as Hdeg.
  { subst sc. cbn [pad spread minP maxP].
    destruct (rawSpread_cases b) as [[Heq ->]|[Hne ->]]; split; intros; try split; lra. }
  split; [exact Hdeg|].
  intros Hnz. unfold toRow. split.
  - rewrite (truncate_zero ((maxP sc - maxP sc) / spread sc * inject_Z (chartH - 1))).
    + change (0 <? 0)%Z with false. cbv iota.
      assert ((0 >=? chartH)%Z = false) as ->
        by (rewrite Z.geb_leb; apply Z.leb_gt; lia).
      done.
    + unfold Qdiv. ring.
  - rewrite (truncate_inject_Z ((maxP sc - minP sc) / spread sc * inject_Z (chartH - 1))
                               (chartH - 1)).
    + assert ((chartH - 1 <? 0)%Z = false) as -> by (apply Z.ltb_ge; lia).
      assert ((chartH - 1 >=? chartH)%Z = false) as ->
        by (rewrite Z.geb_leb; apply Z.leb_gt; lia).
      done.
    + change (maxP sc - minP sc) with (spread sc). field. exact Hnz.
Qed.

Lemma fold_high (l : list Candle) (h0 : Q) :
  h0 <= fold_left highStep l h0
  ∧ (∀ c : Candle, In c l → High c <= fold_left highStep l h0)
  ∧ (fold_left highStep l h0 = h0 ∨ ∃ c : Candle, In c l ∧ fold_left highStep l h0 = High c).
Proof.
  revert h0. induction l as [|c l IH]; intros h0.
  { cbn. split; [apply Qle_refl|]. split; [intros ? []|by left]. }
  cbn [fold_left]. destruct (IH (highStep h0 c)) as (Hge & Hall & Hin).
  assert (h0 <= highStep h0 c ∧ High c <= highStep h0 c) as [Hh Hc].
  { unfold highStep. destruct (Qltb h0 (High c)) eqn:E.
    - apply Qltb_lt in E. split; [by apply Qlt_le_weak|apply Qle_refl].
    - apply Qltb_ge in E. split; [apply Qle_refl|done]. }
  split; [by eapply Qle_trans|]. split.
  - intros c' [<-|Hc']; [by eapply Qle_trans|by apply Hall].
  - destruct Hin as [Heq|(c' & Hc' & Heq)]; [|right; exists c'; split; [by right|done]].
    rewrite Heq. unfold highStep.
    destruct (Qltb h0 (High c)); [right; exists c; split; [by left|done]|by left].
Qed.

Lemma fold_low (l : list Candle) (l0 : Q) :
  fold_left lowStep l l0 <= l0
  ∧ (∀ c : Candle, In c l → 0 < Low c → fold_left lowStep l l0 <= Low c)
  ∧ (fold_left lowStep l l0 = l0
     ∨ ∃ c : Candle, In c l ∧ 0 < Low c ∧ fold_left lowStep l l0 = Low c).
Proof.
  revert l0. induction l as [|c l IH]; intros l0.
  { cbn. split; [apply Qle_refl|]. split; [intros ? []|by left]. }
  cbn [fold_left]. destruct (IH (lowStep l0 c)) as (Hle & Hall & Hin).
  assert (lowStep l0 c <= l0 ∧ (0 < Low c → lowStep l0 c <= Low c)) as [Hl Hc].
  { unfold lowStep. destruct (Qltb (Low c) l0) eqn:E; cbn [andb].
    - apply Qltb_lt in E. destruct (Qltb 0 (Low c)) eqn:E0.
      + split; [by apply Qlt_le_weak|intros; apply Qle_refl].
      + apply Qltb_ge in E0. split; [apply Qle_refl|]. intros Hpos. lra.
    - apply Qltb_ge in E. split; [apply Qle_refl|done]. }
  split; [by eapply Qle_trans|]. split.
  - intros c' [<-|Hc'] Hpos; [eapply Qle_trans; [exact Hle|by apply Hc]|by apply Hall].
  - destruct Hin as [Heq|(c' & Hc' & Hpos & Heq)];
      [|right; exists c'; split; [by right|done]].
    rewrite Heq. unfold lowStep.
    destruct (Qltb (Low c) l0) eqn:E; cbn [andb]; [|by left].
    destruct (Qltb 0 (Low c)) eqn:E0; [|by left].
    apply Qltb_lt in E0. right. exists c. split; [by left|done].
Qed.

(** When the low the loop starts from is not positive, no low of the
    bucket replaces it. *)
Lemma fold_low_stuck (l : list Candle) (l0 : Q) :
  l0 <= 0 → fold_left lowStep l l0 = l0.
Proof.
  intros Hl0. induction l as [|c l IH]; [done|].
  cbn [fold_left]. replace (lowStep l0 c) with l0; [done|].
  unfold lowStep. destruct (Qltb (Low c) l0) eqn:E; cbn [andb]; [|done].
  apply Qltb_lt in E. destruct (Qltb 0 (Low c)) eqn:E0; [|done].
  apply Qltb_lt in E0. lra.
Qed.

(** What an aggregate holds: the open of the first candle and the close of
    the last one of its bucket, the greatest high of the bucket, a low that
    is the low of the first candle or a strictly positive low below it, and
    the flag of close >= open. *)
Lemma aggregate_fields (d : list Candle) (chartW col : Z) (a : ohlc) :
  aggregate d chartW col = Some a →
  let n := Z.of_nat (length d) in
  let start := (col * candlesPerCol n chartW)%Z in
  let end_ := Z.min (start + candlesPerCol n chartW) n in
  ∃ first last : Candle,
    d !! Z.to_nat start = Some first ∧ d !! Z.to_nat (end_ - 1) = Some last
    ∧ open a = Open first ∧ close a = Close last
    ∧ (isUp a = true ↔ open a <= close a)
    ∧ High first <= high a
    ∧ (∀ c : Candle, In c (bucket d start end_) → High c <= high a)
    ∧ low a <= Low first
    ∧ (∀ c : Candle, In c (bucket d start end_) → 0 < Low c → low a <= Low c)
    ∧ (Low first <= 0 → low a = Low first).
Proof.
  intros Ha n start end_. unfold aggregate in Ha. fold n start end_ in Ha.
  destruct (start >=? n)%Z; [done|].
  destruct (d !! Z.to_nat start) as [first|]; [|done].
  destruct (d !! Z.to_nat (end_ - 1)) as [last|]; [|done].
  injection Ha as <-. exists first, last. cbn [open close high low isUp].
  destruct (fold_high (bucket d start end_) (High first)) as (Hh & Hhall & _).
  destruct (fold_low (bucket d start end_) (Low first)) as (Hl & Hlall & _).
  repeat split; try done.
  - apply Qle_bool_iff.
  - apply Qle_bool_iff.
  - apply fold_low_stuck.
Qed.

(** C9 at the failing input: the first candle of the first bucket has
    the low 0 and the second the low 5; the aggregate keeps the low 0, while
    the strictly positive lows of the bucket are just 5. *)
Theorem candle_low_keeps_nonpositive_first :
  candlesPerCol 20 10 = 2%Z
  ∧ bucket Plain.gapped 0 2
    = [{| Open := 10; High := 12; Low := 0; Close := 11 |};
       {| Open := 11; High := 13; Low := 5; Close := 12 |}]
  ∧ aggregate Plain.gapped 10 0
    = Some {| open := 10; close := 12; high := 13; low := 0; isUp := true |}
  ∧ positiveLows (bucket Plain.gapped 0 2) = [5]
  ∧ Qminimum 5 (positiveLows (bucket Plain.gapped 0 2)) = 5.
Proof. repeat split. Qed.

End ChartFacts.

(** *** Further properties of the chart *)

Section ChartMore.

Import Chart.

#[local] Open Scope Q_scope.

Lemma truncate_mono (x y : Q) : x <= y → (truncate x ≤ truncate y)%Z.
Proof.
  unfold Qle, truncate. intros Hle.
  rewrite <- (Z.quot_mul_cancel_r (Qnum x) (Z.pos (Qden x)) (Z.pos (Qden y))) by done.
  rewrite <- (Z.quot_mul_cancel_r (Qnum y) (Z.pos (Qden y)) (Z.pos (Qden x))) by done.
  rewrite (Z.mul_comm (Z.pos (Qden y)) (Z.pos (Qden x))).
  apply Z.quot_le_mono; lia.
Qed.

Lemma truncate_nonneg (x : Q) : 0 <= x → (0 ≤ truncate x)%Z.
Proof. intros Hx. apply (truncate_mono 0 x Hx). Qed.

(** Every price is drawn on a row of the canvas. *)
Lemma toRow_range (chartH : Z) (sc : scaling) (price : Q) :
  (0 < chartH)%Z → (0 ≤ toRow chartH sc price < chartH)%Z.
Proof.
  intros HH. unfold toRow. cbv zeta.
  destruct (truncate _ <? 0)%Z eqn:E1.
  - destruct (0 >=? chartH)%Z eqn:E2; [apply Z.geb_le in E2|]; lia.
  - apply Z.ltb_ge in E1. destruct (truncate _ >=? chartH)%Z eqn:E2; [lia|].
    rewrite Z.geb_leb in E2. apply Z.leb_gt in E2. lia.
Qed.

Lemma pad_spread_positive (closes : list Q) (b : Q * Q) :
  bounds closes = Some b → 0 < snd b → 0 < spread (pad b).
Proof.
  intros Hb Hpos. pose proof (bounds_ordered closes b Hb) as Hord.
  cbn [pad spread]. destruct (rawSpread_cases b) as [[_ ->]|[Hne ->]]; lra.
Qed.

(** X11. For a series whose greatest close is positive, a higher price is never
    drawn on a lower row, and every row is a row of the canvas. *)
Theorem toRow_higher_price_not_lower (closes : list Q) (b : Q * Q) (chartH : Z) (p q : Q) :
  bounds closes = Some b →
  0 < snd b →
  (0 < chartH)%Z →
  p <= q →
  (0 ≤ toRow chartH (pad b) q ≤ toRow chartH (pad b) p)%Z
  ∧ (toRow chartH (pad b) p < chartH)%Z.
Proof.
  intros Hb Hpos HH Hpq.
  pose proof (pad_spread_positive closes b Hb Hpos) as Hs.
  pose proof (toRow_range chartH (pad b) q HH) as Hq.
  pose proof (toRow_range chartH (pad b) p HH) as Hp.
  split; [split; [lia|]|lia].
  assert (truncate ((maxP (pad b) - q) / spread (pad b) * inject_Z (chartH - 1))
          ≤ truncate ((maxP (pad b) - p) / spread (pad b) * inject_Z (chartH - 1)))%Z as Hle.
  { apply truncate_mono. apply Qmult_le_compat_r.
    - unfold Qdiv. apply Qmult_le_compat_r; [lra|].
      apply Qlt_le_weak. by apply Qinv_lt_0_compat.
    - change 0 with (inject_Z 0). rewrite <- Zle_Qle. lia. }
  clear Hq Hp. unfold toRow. cbv zeta.
  repeat match goal with
         | |- context [(?x <? ?y)%Z] => destruct (Z.ltb_spec x y)
         | |- context [(?x >=? ?y)%Z] => rewrite (Z.geb_leb x y); destruct (Z.leb_spec y x)
         end; lia.
Qed.

(** X12. A cell that is drawn lies on a row of the canvas and has the colour
    of its candle; on the rows between open and close the body is drawn, over
    the wick. *)
Theorem cell_drawn_inside_canvas (chartH : Z) (sc : scaling) (a : ohlc) (r : Z) :
  (0 < chartH)%Z →
  ((cell chartH sc a r).1 ≠ Blank → (0 ≤ r < chartH)%Z ∧ (cell chartH sc a r).2 = isUp a)
  ∧ ((Z.min (toRow chartH sc (open a)) (toRow chartH sc (close a)) ≤ r
      ≤ Z.max (toRow chartH sc (open a)) (toRow chartH sc (close a)))%Z →
     (cell chartH sc a r).1 = if isUp a then BodyUp else BodyDown)
  ∧ ((cell chartH sc a r).1 = Wick →
     (toRow chartH sc (high a) ≤ r ≤ toRow chartH sc (low a))%Z).
Proof.
  intros HH.
  pose proof (toRow_range chartH sc (open a) HH).
  pose proof (toRow_range chartH sc (close a) HH).
  pose proof (toRow_range chartH sc (high a) HH).
  pose proof (toRow_range chartH sc (low a) HH).
  unfold cell. cbv zeta.
  set (bodyTop := Z.min (toRow chartH sc (open a)) (toRow chartH sc (close a))) in *.
  set (bodyBot := Z.max (toRow chartH sc (open a)) (toRow chartH sc (close a))) in *.
  assert (bodyTop ≤ r ≤ bodyBot ∨ ¬ (bodyTop ≤ r ≤ bodyBot))%Z as [Hbody|Hbody] by lia.
  - replace ((bodyTop <=? r)%Z && (r <=? bodyBot)%Z) with true
      by (symmetry; apply andb_true_iff; split; apply Z.leb_le; lia).
    cbn [fst snd]. split; [intros _; split; [lia|done]|].
    split; [done|]. by destruct (isUp a).
  - replace ((bodyTop <=? r)%Z && (r <=? bodyBot)%Z) with false
      by (symmetry; apply andb_false_iff;
          destruct (Z.leb_spec bodyTop r); [right; apply Z.leb_gt; lia|by left]).
    destruct (_ && _) eqn:Ewick.
    + boolZ. cbn [fst snd]. split; [intros _; split; [lia|done]|].
      split; [|done]. intros Hin. contradiction.
    + cbn [fst snd]. split; [done|]. split; [|done]. intros Hin. contradiction.
Qed.

(** X13. The sample of a column is an index of the series, the first column
    samples the first point, and the samples never go back from one column to
    the next. *)
Theorem sampleIndex_in_range_and_ordered (n chartW col col' : Z) :
  (1 ≤ n)%Z → (1 ≤ chartW)%Z → (0 ≤ col ≤ col')%Z →
  (0 ≤ sampleIndex n chartW col ≤ sampleIndex n chartW col' ∧ sampleIndex n chartW col' < n)%Z
  ∧ sampleIndex n chartW 0 = 0%Z.
Proof.
  intros Hn HW Hcol.
  assert (0 <= inject_Z n / inject_Z chartW) as Hstep.
  { unfold Qdiv. apply Qmult_le_0_compat.
    - change 0 with (inject_Z 0). rewrite <- Zle_Qle. lia.
    - apply Qlt_le_weak, Qinv_lt_0_compat.
      change 0 with (inject_Z 0). rewrite <- Zlt_Qlt. lia. }
  assert (inject_Z col * (inject_Z n / inject_Z chartW)
          <= inject_Z col' * (inject_Z n / inject_Z chartW)) as Hle.
  { apply Qmult_le_compat_r; [|done]. rewrite <- Zle_Qle. lia. }
  assert (0 <= inject_Z col * (inject_Z n / inject_Z chartW)) as Hpos.
  { apply Qmult_le_0_compat; [|done]. change 0 with (inject_Z 0). rewrite <- Zle_Qle. lia. }
  apply truncate_mono in Hle. apply truncate_nonneg in Hpos.
  split.
  - unfold sampleIndex. cbv zeta.
    repeat match goal with
           | |- context [(?x >=? ?y)%Z] => rewrite (Z.geb_leb x y); destruct (Z.leb_spec y x)
           end; lia.
  - unfold sampleIndex. cbv zeta.
    rewrite (truncate_zero (inject_Z 0 * (inject_Z n / inject_Z chartW))) by ring.
    rewrite Z.geb_leb. destruct (Z.leb_spec n 0); [lia|done].
Qed.

Lemma spark_scan (l : list Q) (b : Q * Q) :
  fst (fold_left sparkStep l b) <= fst b
  ∧ snd b <= snd (fold_left sparkStep l b)
  ∧ ∀ p : Q, In p l → fst (fold_left sparkStep l b) <= p ∧ p <= snd (fold_left sparkStep l b).
Proof.
  revert b. induction l as [|p l IH]; intros b.
  { cbn. split; [apply Qle_refl|]. split; [apply Qle_refl|intros ? []]. }
  cbn [fold_left]. destruct (IH (sparkStep b p)) as (Hmin & Hmax & Hall).
  assert (fst (sparkStep b p) <= fst b ∧ fst (sparkStep b p) <= p
          ∧ snd b <= snd (sparkStep b p) ∧ p <= snd (sparkStep b p)) as (H1 & H2 & H3 & H4).
  { unfold sparkStep. cbn [fst snd].
    destruct (Qltb p (fst b)) eqn:E1; destruct (Qltb (snd b) p) eqn:E2;
      rewrite ?Qltb_lt, ?Qltb_ge in *; repeat split; lra. }
  split; [lra|]. split; [lra|].
  intros q [<-|Hq]; [split; lra|by apply Hall].
Qed.

(** X14. The block of a price of the sparkline is one of the eight blocks; the
    least price of the series has the lowest block, the greatest one the
    highest block when the prices differ, and a flat series has the lowest
    block throughout. *)
Theorem blockIndex_is_a_block (prices : list Q) (b : Q * Q) :
  sparkBounds prices = Some b →
  (∀ p : Q, (0 ≤ blockIndex b p ≤ 7)%Z)
  ∧ (∀ p : Q, In p prices → fst b <= p ∧ p <= snd b)
  ∧ blockIndex b (fst b) = 0%Z
  ∧ (fst b < snd b → blockIndex b (snd b) = 7%Z)
  ∧ (fst b == snd b → ∀ p : Q, In p prices → blockIndex b p = 0%Z).
Proof.
  intros Hb.
  assert (∀ p : Q, In p prices → fst b <= p ∧ p <= snd b) as Hall.
  { destruct prices as [|p0 l]; [done|].
    assert (fold_left sparkStep (p0 :: l) (p0, p0) = b) as <- by (by injection Hb).
    apply spark_scan. }
  assert (∀ p : Q, p == fst b → blockIndex b p = 0%Z) as Hlow.
  { intros p Hp. unfold blockIndex. cbv zeta.
    rewrite (truncate_zero ((p - fst b) / _ * inject_Z (8 - 1))); [done|].
    unfold Qdiv. rewrite Hp. ring. }
  split; [intros p; unfold blockIndex; lia|]. split; [done|].
  split; [by apply Hlow|]. split.
  - intros Hlt. unfold blockIndex. cbv zeta.
    destruct (Qeq_bool (snd b - fst b) 0) eqn:E.
    { apply Qeq_bool_iff in E. lra. }
    rewrite (truncate_inject_Z _ 7); [done|].
    change (inject_Z (8 - 1)) with (inject_Z 7). field. lra.
  - intros Hflat p Hp. apply Hlow. destruct (Hall p Hp). lra.
Qed.

Lemma take_same_min {A : Type} (l : list A) (i j : nat) :
  (i `min` length l = j `min` length l)%nat → take i l = take j l.
Proof.
  intros Hij. destruct (Nat.le_gt_cases (length l) i).
  - rewrite (take_ge l i) by done. rewrite take_ge; [done|lia].
  - f_equal. lia.
Qed.

Lemma candlesPerCol_pos (n chartW : Z) : (1 ≤ candlesPerCol n chartW)%Z.
Proof. unfold candlesPerCol. lia. Qed.

Lemma columns_concat (d : list Candle) (chartW : Z) (k : nat) :
  concat ((λ col : nat, columnBucket d chartW (Z.of_nat col)) <$> seq 0 k)
  = take (Z.to_nat (Z.of_nat k * candlesPerCol (Z.of_nat (length d)) chartW)) d.
Proof.
  pose proof (candlesPerCol_pos (Z.of_nat (length d)) chartW) as Hc.
  induction k as [|k IH]; [done|].
  rewrite seq_S, fmap_app, concat_app, IH. cbn [fmap list_fmap concat].
  rewrite app_nil_r. unfold columnBucket, bucket. cbv zeta.
  set (cpc := candlesPerCol (Z.of_nat (length d)) chartW) in *.
  rewrite take_take_drop. apply take_same_min. nia.
Qed.

(** X15. Candle mode draws the series in order, [candlesPerCol] candles per
    column: the columns [0 .. chartW-1] hold the first [chartW * candlesPerCol]
    candles.  A series shorter than the canvas is drawn whole, one candle per
    column; a longer one loses its last [n mod chartW] candles. *)
Theorem candle_columns_cover_a_prefix (d : list Candle) (chartW : nat) :
  (1 ≤ chartW)%nat →
  let n := Z.of_nat (length d) in
  let shown :=
    concat ((λ col : nat, columnBucket d (Z.of_nat chartW) (Z.of_nat col)) <$> seq 0 chartW) in
  shown = take (Z.to_nat (Z.of_nat chartW * candlesPerCol n (Z.of_nat chartW))) d
  ∧ ((n ≤ Z.of_nat chartW)%Z → candlesPerCol n (Z.of_nat chartW) = 1%Z ∧ shown = d)
  ∧ ((Z.of_nat chartW ≤ n)%Z →
     Z.of_nat (length shown) = (n - n `rem` Z.of_nat chartW)%Z).
Proof.
  intros HW n shown. subst shown. rewrite columns_concat. fold n.
  split; [done|]. split.
  - intros Hn.
    assert (candlesPerCol n (Z.of_nat chartW) = 1%Z) as Hc.
    { unfold candlesPerCol.
      destruct (Z.eq_dec n (Z.of_nat chartW)) as [->|Hne].
      - rewrite Z.quot_same by lia. lia.
      - rewrite Z.quot_small by lia. lia. }
    split; [done|]. rewrite Hc. apply take_ge. lia.
  - intros Hn. rewrite length_take.
    assert (candlesPerCol n (Z.of_nat chartW) = n ÷ Z.of_nat chartW)%Z as ->.
    { unfold candlesPerCol.
      assert (1 ≤ n ÷ Z.of_nat chartW)%Z; [|lia].
      rewrite <- (Z.quot_same (Z.of_nat chartW)) by lia. apply Z.quot_le_mono; lia. }
    pose proof (Z.quot_rem' n (Z.of_nat chartW)) as Hqr.
    pose proof (Z.rem_bound_pos n (Z.of_nat chartW)) as Hrem.
    lia.
Qed.

(** X16. The aggregate of a column exists exactly when the column still has
    candles; it then holds the open of the first candle of the column and the
    close of its last one, its high is the greatest high of the column and is
    the high of one of its candles, and it is up exactly when the close is
    not below the open. *)
Theorem aggregate_of_a_column (d : list Candle) (chartW col : Z) :
  (1 ≤ chartW)%Z → (0 ≤ col)%Z →
  let n := Z.of_nat (length d) in
  (aggregate d chartW col = None ↔ (n ≤ col * candlesPerCol n chartW)%Z)
  ∧ ∀ a : ohlc,
      aggregate d chartW col = Some a →
      ∃ first last_ : Candle,
        head (columnBucket d chartW col) = Some first
        ∧ last (columnBucket d chartW col) = Some last_
        ∧ open a = Open first ∧ close a = Close last_
        ∧ (∀ c : Candle, In c (columnBucket d chartW col) → High c <= high a)
        ∧ (∃ c : Candle, In c (columnBucket d chartW col) ∧ high a = High c)
        ∧ (isUp a = true ↔ open a <= close a).
Proof.
  intros HW Hcol n.
  pose proof (candlesPerCol_pos n chartW) as Hc.
  unfold aggregate, columnBucket. fold n. cbv zeta.
  set (cpc := candlesPerCol n chartW) in *.
  set (start := (col * cpc)%Z).
  set (end_ := Z.min (start + cpc) n).
  assert (0 ≤ start)%Z as Hs by (subst start; nia).
  rewrite Z.geb_leb. destruct (Z.leb_spec n start) as [Hout|Hin].
  { split; [done|]. intros a [=]. }
  assert (start < end_ ≤ n)%Z as He by lia.
  destruct (lookup_lt_is_Some_2 d (Z.to_nat start)) as [first Hfirst]; [lia|].
  destruct (lookup_lt_is_Some_2 d (Z.to_nat (end_ - 1))) as [last_ Hlast]; [lia|].
  rewrite Hfirst, Hlast. split; [split; [done|lia]|].
  intros a [= <-]. cbn [open close high isUp].
  assert (head (bucket d start end_) = Some first) as Hhead.
  { unfold bucket. rewrite head_lookup, lookup_take_lt, lookup_drop by lia.
    by rewrite Nat.add_0_r. }
  assert (last (bucket d start end_) = Some last_) as Hlst.
  { unfold bucket. rewrite last_lookup, length_take, length_drop.
    rewrite lookup_take_lt, lookup_drop by lia.
    rewrite <- Hlast. f_equal. lia. }
  assert (In first (bucket d start end_)) as Hfin.
  { destruct (bucket d start end_); [done|]. injection Hhead as ->. by left. }
  destruct (fold_high (bucket d start end_) (High first)) as (_ & Hall & Hatt).
  exists first, last_. repeat split; try done.
  - destruct Hatt as [->|Hatt]; [by exists first|done].
  - apply Qle_bool_iff.
  - apply Qle_bool_iff.
Qed.

End ChartMore.

Lemma sampleIndex_in_range_and_ordered_witness :
  (0 ≤ Chart.sampleIndex 20 40 7 ≤ Chart.sampleIndex 20 40 39 ∧ Chart.sampleIndex 20 40 39 < 20)
  ∧ Chart.sampleIndex 20 40 0 = 0.
Proof.
  refine (sampleIndex_in_range_and_ordered 20 40 7 39 _ _ _); lia.
Defined.

Lemma blockIndex_is_a_block_witness :
  Chart.blockIndex (100, 104)%Q 100 = 0 ∧ Chart.blockIndex (100, 104)%Q 104 = 7.
Proof.
  destruct (blockIndex_is_a_block (Chart.closesOf Plain.aapl24) (100, 104)%Q)
    as (_ & _ & Hlow & Hhigh & _).
  - reflexivity.
  - split; [exact Hlow|]. apply Hhigh. reflexivity.
Defined.

Lemma candle_columns_cover_a_prefix_witness :
  Chart.candlesPerCol 5 10 = 1
  ∧ concat ((λ col : nat, Chart.columnBucket Plain.aapl24 10 (Z.of_nat col)) <$> seq 0 10)
    = Plain.aapl24.
Proof.
  refine (proj1 (proj2 (candle_columns_cover_a_prefix Plain.aapl24 10 _)) _).
  - lia.
  - cbn. lia.
Defined.

Lemma toRow_higher_price_not_lower_witness :
  0 ≤ Chart.toRow 16 (Chart.pad (100, 104)%Q) 103 ≤ Chart.toRow 16 (Chart.pad (100, 104)%Q) 101
  ∧ Chart.toRow 16 (Chart.pad (100, 104)%Q) 101 < 16.
Proof.
  refine (toRow_higher_price_not_lower (Chart.closesOf Plain.aapl24) (100, 104)%Q 16 101 103
            _ _ _ _).
  - reflexivity.
  - reflexivity.
  - reflexivity.
  - vm_compute. discriminate.
Defined.

Lemma cell_drawn_inside_canvas_witness :
  (Chart.cell 16
     (Chart.pad (100, 104)%Q)
     {| Chart.open := 101; Chart.close := 103; Chart.high := 104; Chart.low := 100;
        Chart.isUp := true |} 7).1 = Chart.BodyUp.
Proof.
  refine (proj1 (proj2 (cell_drawn_inside_canvas 16 (Chart.pad (100, 104)%Q)
            {| Chart.open := 101; Chart.close := 103; Chart.high := 104; Chart.low := 100;
               Chart.isUp := true |} 7 _)) _).
  - reflexivity.
  - vm_compute. split; discriminate.
Defined.

(** The witness of C8: the five closes 100 .. 104 on sixteen rows. *)
Lemma scaling_pads_and_anchors_witness :
  Chart.toRow 16 (Chart.pad (100, 104)%Q) (Chart.maxP (Chart.pad (100, 104)%Q)) = 0
  ∧ Chart.toRow 16 (Chart.pad (100, 104)%Q) (Chart.minP (Chart.pad (100, 104)%Q)) = 15.
Proof.
  destruct (scaling_pads_and_anchors (Chart.closesOf Plain.aapl24) (100, 104)%Q 16)
    as (_ & _ & _ & _ & _ & _ & _ & _ & _ & _ & Hrows).
  - reflexivity.
  - reflexivity.
  - apply Hrows. vm_compute. discriminate.
Defined.

(** ** The orchestrator *)




Section OrchestratorFacts.

Import Watchlist App.

Context {L H F : Type} `{!ListWidget L} `{!HelpWidget H} `{!FooterWidget F}.

Implicit Types (m : AppModel L H F) (msg : Msg) (cmds : list Cmd).

(** *** What each part of [Update] does to the cache *)

Lemma forward_lastHistory msg m cmds :
  lastHistory (forward msg m cmds).1 = lastHistory m.
Proof. unfold forward. repeat case_match; simplify_eq/=; done. Qed.

Lemma refreshCurrentChart_lastHistory m :
  lastHistory (refreshCurrentChart m).1 = lastHistory m.
Proof. unfold refreshCurrentChart. by case_match. Qed.

Lemma loadCurrentChart_lastHistory m :
  lastHistory (loadCurrentChart m).1 = lastHistory m.
Proof. unfold loadCurrentChart. by repeat case_match. Qed.

Lemma setTimeRange_lastHistory tr m :
  lastHistory (setTimeRange tr m) = lastHistory m.
Proof. unfold setTimeRange. by case_match. Qed.

Lemma updateHelp_lastHistory msg m :
  lastHistory (updateHelp msg m).1 = lastHistory m.
Proof. unfold updateHelp. repeat case_match; simplify_eq/=; done. Qed.

Lemma onKey_lastHistory key m :
  lastHistory (onKey key m).1 = lastHistory m.
Proof.
  unfold onKey.
  repeat case_match; simplify_eq/=;
    rewrite ?loadCurrentChart_lastHistory, ?setTimeRange_lastHistory,
      ?forward_lastHistory; try done.
  match goal with
  | Hr : refreshCurrentChart ?m0 = (?m1, _) |- _ =>
      change m1 with (m1, @nil Cmd).1; rewrite <- (refreshCurrentChart_lastHistory m0), Hr
  end.
  done.
Qed.

Lemma onQuotes_lastHistory quotes e m :
  lastHistory (onQuotes quotes e m).1 = lastHistory m.
Proof. unfold onQuotes. by repeat case_match. Qed.

Lemma onRateLimited_lastHistory sym tr e d m :
  lastHistory (onRateLimited sym tr e d m).1 = lastHistory m.
Proof. unfold onRateLimited. by repeat case_match. Qed.

Lemma onHistory_lastHistory sym tr d m :
  lastHistory (onHistory sym tr d m) = <[cacheKey sym tr := d]> (lastHistory m).
Proof. unfold onHistory. by repeat case_match. Qed.

(** The cache after one message: only a history message with a nil
    error that arrives while the help overlay is hidden writes it, at the key
    of its pair. *)
Lemma Update_lastHistory msg m :
  lastHistory (Update msg m).1
  = if help_Visible (help m) then lastHistory m
    else match msg with
         | historyMsg sym tr d None => <[cacheKey sym tr := d]> (lastHistory m)
         | _ => lastHistory m
         end.
Proof.
  unfold Update. destruct (help_Visible (help m)); [apply updateHelp_lastHistory|].
  destruct msg as [a b X Y|w h|key| |quotes e|sym tr d [e|]|sym tr|tag].
  - case_match; [|by rewrite forward_lastHistory].
    by rewrite refreshCurrentChart_lastHistory.
  - by rewrite forward_lastHistory.
  - apply onKey_lastHistory.
  - by rewrite forward_lastHistory.
  - destruct (onQuotes quotes e m) as [m1 c1] eqn:E.
    rewrite forward_lastHistory.
    change m1 with (m1, c1).1. by rewrite <- E, onQuotes_lastHistory.
  - case_match; [apply onRateLimited_lastHistory|by rewrite forward_lastHistory].
  - by rewrite forward_lastHistory, onHistory_lastHistory.
  - rewrite forward_lastHistory. by case_match.
  - by rewrite forward_lastHistory.
Qed.

Lemma run_snoc (msgs : list Msg) msg m :
  run (msgs ++ [msg]) m = (Update msg (run msgs m)).1.
Proof. unfold run. by rewrite foldl_app. Qed.



(** *** The commands of one message *)

(** The commands that [forward] adds are the widget's own and, when the
    selection moved to a symbol whose pair is not cached, one history fetch;
    none is a timer. *)
Lemma forward_cmds msg m cmds :
  ∃ rest : list Cmd,
    (forward msg m cmds).2 = cmds ++ rest ∧ Forall (λ c, isTick c = false) rest.
Proof.
  unfold forward, Chart.Update.
  destruct (Watchlist.Update msg (watchlist m)) as [wl wc].
  assert (Forall (λ c, isTick c = false) (cmdOf wc)) as Hwc
    by (destruct wc; repeat constructor).
  repeat case_match; simplify_eq/=; rewrite <- ?app_assoc;
    (eexists; split; [reflexivity|]);
    rewrite ?Forall_app; repeat split; try done; by repeat constructor.
Qed.

(** While the help overlay is visible a message reaches the overlay only:
    the commands are the overlay's, and the chart, the watchlist, the active
    range and the cache are as before. *)
Lemma Update_under_help msg m :
  help_Visible (help m) = true →
  (Update msg m).2 = cmdOf (help_Update msg (help m)).2
  ∧ chart (Update msg m).1 = chart m
  ∧ watchlist (Update msg m).1 = watchlist m
  ∧ timeRange (Update msg m).1 = timeRange m
  ∧ lastHistory (Update msg m).1 = lastHistory m.
Proof.
  intros Hv. unfold Update, updateHelp. rewrite Hv.
  destruct (help_Update msg (help m)) as [h c]. cbn [snd].
  repeat case_match; simplify_eq/=; done.
Qed.

(** C4 (as amended). While the help overlay is hidden, a history message
    whose error is a rate limit returns exactly one command, the timer that
    delivers the retry message of that pair after the signalled delay; the
    chart shows the cached series as stale with that delay when the pair is
    cached and is the selection, is left alone when it is cached and is not
    the selection, and shows the error when the pair is not cached; the cache
    is unchanged; and the retry message, processed while the overlay is
    hidden, issues the history fetch of the pair. *)
Theorem rate_limited_history_serves_stale m (sym : string) (tr : TimeRange)
    (d : list Candle) (e : error) (retryAfter : Z) :
  help_Visible (help m) = false →
  errors_As_RateLimit e = Some retryAfter →
  let m' := (Update (historyMsg sym tr d (Some e)) m).1 in
  (Update (historyMsg sym tr d (Some e)) m).2 = [Tick retryAfter (retryHistoryMsg sym tr)]
  ∧ (∀ cached : list Candle,
       lastHistory m !! cacheKey sym tr = Some cached → selected m sym tr = true →
       chart m' = Chart.SetStale retryAfter (Chart.SetData sym tr cached (chart m))
       ∧ Chart.data (chart m') = cached
       ∧ Chart.stale (chart m') = true
       ∧ Chart.retryAfter (chart m') = retryAfter
       ∧ Chart.loading (chart m') = false
       ∧ Chart.err (chart m') = None)
  ∧ (∀ cached : list Candle,
       lastHistory m !! cacheKey sym tr = Some cached → selected m sym tr = false →
       chart m' = chart m)
  ∧ (lastHistory m !! cacheKey sym tr = None →
     Chart.View (chart m') = Chart.ErrorText e ∧ Chart.stale (chart m') = false)
  ∧ lastHistory m' = lastHistory m
  ∧ (∀ m2, help_Visible (help m2) = false →
       ∃ rest : list Cmd,
         (Update (retryHistoryMsg sym tr) m2).2 = fetchHistory sym tr :: rest).
Proof.
  intros Hv He m'. subst m'. unfold Update. rewrite Hv, He.
  split; [done|]. unfold onRateLimited. cbn [fst].
  split. { intros cached -> ->. done. }
  split. { intros cached -> ->. done. }
  split. { intros ->. done. }
  split. { by repeat case_match. }
  intros m2 Hv2. rewrite Hv2.
  destruct (forward_cmds (retryHistoryMsg sym tr)
              (if selected m2 sym tr
               then set_chart (Chart.SetLoading true (chart m2)) m2 else m2)
              [fetchHistory sym tr]) as (rest & -> & _).
  by exists rest.
Qed.

(** No timer is among the commands of a history message whose error is
    not a rate limit. *)
Lemma history_error_no_timer m (sym : string) (tr : TimeRange) (d : list Candle) (e : error) :
  errors_As_RateLimit e = None →
  Forall (λ c, isTick c = false) (Update (historyMsg sym tr d (Some e)) m).2.
Proof.
  intros He. destruct (help_Visible (help m)) eqn:Hv.
  - destruct (Update_under_help (historyMsg sym tr d (Some e)) m Hv) as (-> & _).
    destruct (help_Update _ _).2; repeat constructor.
  - unfold Update. rewrite Hv, He.
    destruct (forward_cmds (historyMsg sym tr d (Some e))
                (set_chart (Chart.SetError e (chart m)) m) []) as (rest & -> & Hrest).
    done.
Qed.

(** *** Cache hits *)

(** Loading the chart of a selection whose pair is cached shows the cached
    series and returns no command. *)
Lemma loadCurrentChart_cached m (cached : list Candle) :
  SelectedSymbol (watchlist m) ≠ ""%string →
  lastHistory m !! cacheKey (SelectedSymbol (watchlist m)) (timeRange m) = Some cached →
  (loadCurrentChart m).2 = []
  ∧ Chart.data (chart (loadCurrentChart m).1) = cached
  ∧ Chart.loading (chart (loadCurrentChart m).1) = false.
Proof.
  intros Hsel Hc. unfold loadCurrentChart. rewrite Hc.
  destruct (String.eqb_spec (SelectedSymbol (watchlist m)) ""); done.
Qed.

(** A message that moves the selection to a symbol whose pair is cached
    adds no command but the widget's own and shows the cached series. *)
Lemma forward_selects_cached msg m cmds (cached : list Candle) :
  let wl := (Watchlist.Update msg (watchlist m)).1 in
  SelectedSymbol wl ≠ SelectedSymbol (watchlist m) →
  SelectedSymbol wl ≠ ""%string →
  lastHistory m !! cacheKey (SelectedSymbol wl) (timeRange m) = Some cached →
  (forward msg m cmds).2 = cmds ++ cmdOf (Watchlist.Update msg (watchlist m)).2
  ∧ Chart.data (chart (forward msg m cmds).1) = cached
  ∧ Chart.loading (chart (forward msg m cmds).1) = false.
Proof.
  intros wl Hmove Hsel Hc. subst wl. unfold forward.
  destruct (Watchlist.Update msg (watchlist m)) as [wl wc]. cbn [fst snd] in *.
  unfold Chart.Update.
  cbn [watchlist set_watchlist lastHistory timeRange]. rewrite Hc.
  destruct (String.eqb_spec (SelectedSymbol (watchlist m)) (SelectedSymbol wl));
    [congruence|].
  destruct (String.eqb_spec (SelectedSymbol wl) ""); [done|].
  cbn. by rewrite app_nil_r.
Qed.

(** The range keys on a selection whose pair at the new range is cached:
    the cached series is shown and no command is returned. *)
Lemma range_key_cached m (key : string) (tr : TimeRange) (cached : list Candle) :
  help_Visible (help m) = false →
  (key, tr) ∈ [("1", Range1H); ("2", Range24H); ("3", Range7D); ("4", Range30D)]%string →
  SelectedSymbol (watchlist m) ≠ ""%string →
  lastHistory m !! cacheKey (SelectedSymbol (watchlist m)) tr = Some cached →
  (Update (KeyMsg key) m).2 = []
  ∧ timeRange (Update (KeyMsg key) m).1 = tr
  ∧ Chart.data (chart (Update (KeyMsg key) m).1) = cached
  ∧ Chart.loading (chart (Update (KeyMsg key) m).1) = false.
Proof.
  intros Hv Hkey Hsel Hc. unfold Update. rewrite Hv.
  assert (SelectedSymbol (watchlist (setTimeRange tr m)) = SelectedSymbol (watchlist m)
          ∧ timeRange (setTimeRange tr m) = tr
          ∧ lastHistory (setTimeRange tr m) = lastHistory m) as (Hs & Ht & Hl).
  { unfold setTimeRange. case_bool_decide; done. }
  destruct (loadCurrentChart_cached (setTimeRange tr m) cached) as (Hcmds & Hdata & Hload).
  { by rewrite Hs. }
  { by rewrite Hs, Ht, Hl. }
  assert (timeRange (loadCurrentChart (setTimeRange tr m)).1 = tr) as Htr.
  { unfold loadCurrentChart. by repeat case_match. }
  repeat (apply elem_of_cons in Hkey as [[= -> ->]|Hkey]; [done|]).
  by apply elem_of_nil in Hkey.
Qed.

(** A left click on the footer row with a symbol selected issues the
    history fetch of the selection at the next range and marks the chart
    loading, whatever the cache holds. *)
Lemma footer_click_fetches m (a : MouseAction) (b : MouseButton) (X Y : Z) :
  help_Visible (help m) = false →
  pressedLeft a b = true →
  Y = height m - 1 →
  SelectedSymbol (watchlist m) ≠ ""%string →
  (Update (MouseMsg a b X Y) m).2
  = [fetchHistory (SelectedSymbol (watchlist m)) (timeRange (cycleTimeRange m))]
  ∧ Chart.loading (chart (Update (MouseMsg a b X Y) m).1) = true.
Proof.
  intros Hv Hp -> Hsel. unfold Update. rewrite Hv, Hp, Z.eqb_refl. cbn [andb].
  unfold refreshCurrentChart.
  change (watchlist (cycleTimeRange m)) with (watchlist m).
  destruct (String.eqb_spec (SelectedSymbol (watchlist m)) ""); done.
Qed.

End OrchestratorFacts.

(** *** The orchestrator on the plain widgets *)


(** The witness of C4 as amended (scenario D): the five point series of
    AAPL is cached and shown, and a fetch fails with a rate limit of 10s. *)
Lemma rate_limited_history_witness :
  (App.Update (historyMsg "AAPL" Range24H [] (Some (RateLimitError (10 * Second))))
     Plain.warm).2
  = [App.Tick (10 * Second) (retryHistoryMsg "AAPL" Range24H)]
  ∧ Chart.data (App.chart
      (App.Update (historyMsg "AAPL" Range24H [] (Some (RateLimitError (10 * Second))))
         Plain.warm).1) = Plain.aapl24
  ∧ Chart.stale (App.chart
      (App.Update (historyMsg "AAPL" Range24H [] (Some (RateLimitError (10 * Second))))
         Plain.warm).1) = true.
Proof.
  destruct (rate_limited_history_serves_stale Plain.warm "AAPL" Range24H []
              (RateLimitError (10 * Second)) (10 * Second))
    as (Hcmds & Hstale & _).
  - reflexivity.
  - reflexivity.
  - split; [exact Hcmds|].
    destruct (Hstale Plain.aapl24) as (_ & Hdata & Hst & _).
    + vm_compute. reflexivity.
    + vm_compute. reflexivity.
    + split; [exact Hdata|exact Hst].
Defined.

(** The counterexample to C4 as stated: the same message while the help
    overlay is open.  The pair is cached and is the selection, yet no retry is
    scheduled and the chart is not marked stale. *)
Lemma rate_limited_history_dropped_under_help :
  App.help_Visible (App.help Plain.warmHelp) = true
  ∧ App.lastHistory Plain.warmHelp !! App.cacheKey "AAPL" Range24H = Some Plain.aapl24
  ∧ App.selected Plain.warmHelp "AAPL" Range24H = true
  ∧ (App.Update (historyMsg "AAPL" Range24H [] (Some (RateLimitError (10 * Second))))
       Plain.warmHelp).2 = []
  ∧ Chart.stale (App.chart
      (App.Update (historyMsg "AAPL" Range24H [] (Some (RateLimitError (10 * Second))))
         Plain.warmHelp).1) = false.
Proof. vm_compute. repeat split. Qed.

(** C5 at the failing input: AAPL is selected at 24H and its 7D series is
    cached; a left click on the footer row cycles to 7D, marks the chart
    loading and issues a history fetch, where the tab key on the same state
    shows the cached series and issues nothing. *)
Theorem footer_click_refetches_cached :
  Watchlist.SelectedSymbol (App.watchlist Plain.warm) = "AAPL"%string
  ∧ App.timeRange Plain.warm = Range24H
  ∧ App.height Plain.warm = 24
  ∧ App.help_Visible (App.help Plain.warm) = false
  ∧ App.lastHistory Plain.warm !! App.cacheKey "AAPL" Range7D = Some Plain.aapl7
  ∧ App.timeRange (App.Update (MouseMsg MouseActionPress MouseButtonLeft 5 23) Plain.warm).1
    = Range7D
  ∧ (App.Update (MouseMsg MouseActionPress MouseButtonLeft 5 23) Plain.warm).2
    = [App.fetchHistory "AAPL" Range7D]
  ∧ Chart.View (App.chart
      (App.Update (MouseMsg MouseActionPress MouseButtonLeft 5 23) Plain.warm).1)
    = Chart.Loading
  ∧ App.timeRange (App.Update (KeyMsg "tab") Plain.warm).1 = Range7D
  ∧ (App.Update (KeyMsg "tab") Plain.warm).2 = []
  ∧ Chart.data (App.chart (App.Update (KeyMsg "tab") Plain.warm).1) = Plain.aapl7
  ∧ Chart.View (App.chart (App.Update (KeyMsg "tab") Plain.warm).1) = Chart.Rendered.
Proof. vm_compute. repeat split. Qed.

(** C6 at the failing input: AAPL is selected at 24H and shown; a history
    fetch of BTC-USD fails with an error that is not a rate limit, and the
    chart pane of AAPL shows that error. *)
Theorem history_error_shown_for_unselected :
  Watchlist.SelectedSymbol (App.watchlist Plain.warm) = "AAPL"%string
  ∧ App.selected Plain.warm "BTC-USD" Range24H = false
  ∧ Chart.View (App.chart Plain.warm) = Chart.Rendered
  ∧ errors_As_RateLimit (opaqueError "connection reset") = None
  ∧ Chart.symbol (App.chart
      (App.Update (historyMsg "BTC-USD" Range24H [] (Some (opaqueError "connection reset")))
         Plain.warm).1) = "AAPL"%string
  ∧ Chart.View (App.chart
      (App.Update (historyMsg "BTC-USD" Range24H [] (Some (opaqueError "connection reset")))
         Plain.warm).1) = Chart.ErrorText (opaqueError "connection reset")
  ∧ (App.Update (historyMsg "BTC-USD" Range24H [] (Some (opaqueError "connection reset")))
       Plain.warm).2 = [].
Proof. vm_compute. repeat split. Qed.

Lemma aggregate_of_a_column_witness :
  ∃ first last_ : Candle,
    head (Chart.columnBucket Plain.gapped 10 0) = Some first
    ∧ last (Chart.columnBucket Plain.gapped 10 0) = Some last_
    ∧ Open first = 10%Q ∧ Close last_ = 12%Q.
Proof.
  destruct (proj2 (aggregate_of_a_column Plain.gapped 10 0 ltac:(lia) ltac:(lia))
              {| Chart.open := 10; Chart.close := 12; Chart.high := 13; Chart.low := 0;
                 Chart.isUp := true |})
    as (first & last_ & Hh & Hl & Ho & Hc & _).
  - reflexivity.
  - exists first, last_. split; [exact Hh|]. split; [exact Hl|].
    split; [symmetry; exact Ho|symmetry; exact Hc].
Defined.

(** *** Further properties of the orchestrator *)

Section OrchestratorMore.

Import Watchlist App.

Context {L H F : Type} `{!ListWidget L} `{!HelpWidget H} `{!FooterWidget F}.

Implicit Types (m : AppModel L H F) (msg : Msg) (cmds : list Cmd).

(** X17. While the help overlay is visible every message goes to the overlay
    alone: the commands returned are the overlay's own (no fetch, no timer,
    and after a tick no wait for the next tick), and the chart, the
    watchlist, the active range, the quotes, the error and the cache are as
    before. *)
Theorem help_overlay_swallows_messages msg m :
  help_Visible (help m) = true →
  (Update msg m).2 = cmdOf (help_Update msg (help m)).2
  ∧ Forall (λ c, isFetch c = false ∧ isTick c = false ∧ c ≠ waitForTick ∧ c ≠ Quit)
      (Update msg m).2
  ∧ chart (Update msg m).1 = chart m
  ∧ watchlist (Update msg m).1 = watchlist m
  ∧ timeRange (Update msg m).1 = timeRange m
  ∧ lastQuotes (Update msg m).1 = lastQuotes m
  ∧ err (Update msg m).1 = err m
  ∧ lastHistory (Update msg m).1 = lastHistory m.
Proof.
  intros Hv. unfold Update, updateHelp. rewrite Hv.
  destruct (help_Update msg (help m)) as [h c]. cbn [snd].
  assert (Forall (λ c, isFetch c = false ∧ isTick c = false ∧ c ≠ waitForTick ∧ c ≠ Quit)
            (cmdOf c)) as Hc by (destruct c; repeat constructor; done).
  repeat case_match; simplify_eq/=; done.
Qed.

Lemma forward_no_tick msg m cmds :
  Forall (λ c, isTick c = false) cmds →
  Forall (λ c, isTick c = false) (forward msg m cmds).2.
Proof.
  intros Hc. destruct (forward_cmds msg m cmds) as (rest & -> & Hrest).
  apply Forall_app. done.
Qed.

Lemma refreshCurrentChart_no_tick m :
  Forall (λ c, isTick c = false) (refreshCurrentChart m).2.
Proof. unfold refreshCurrentChart. case_match; repeat constructor. Qed.

Lemma loadCurrentChart_no_tick m :
  Forall (λ c, isTick c = false) (loadCurrentChart m).2.
Proof. unfold loadCurrentChart. repeat case_match; repeat constructor. Qed.

Lemma onKey_no_tick key m : Forall (λ c, isTick c = false) (onKey key m).2.
Proof.
  unfold onKey.
  repeat case_match; simplify_eq/=;
    try apply loadCurrentChart_no_tick; try apply forward_no_tick;
    try (by repeat constructor).
  constructor; [done|].
  match goal with
  | Hr : refreshCurrentChart ?m0 = (_, ?c) |- _ =>
      change c with (refreshCurrentChart m0).2 || (replace c with (refreshCurrentChart m0).2
        by (by rewrite Hr))
  end.
  apply refreshCurrentChart_no_tick.
Qed.

(** X18. A timer is among the commands of a message only when the message is a
    history result whose error is a rate limit, processed while the help
    overlay is hidden; the timer is then the retry of that pair after the
    signalled delay. *)
Theorem timer_only_after_rate_limit msg m (c : Cmd) :
  In c (Update msg m).2 →
  isTick c = true →
  ∃ (sym : string) (tr : TimeRange) (d : list Candle) (e : error) (retryAfter : Z),
    msg = historyMsg sym tr d (Some e)
    ∧ errors_As_RateLimit e = Some retryAfter
    ∧ help_Visible (help m) = false
    ∧ c = Tick retryAfter (retryHistoryMsg sym tr).
Proof.
  intros Hin Htick.
  assert (Forall (λ c, isTick c = false) (Update msg m).2 → False) as Hno.
  { intros Hall. rewrite Forall_forall in Hall.
    apply list_elem_of_In in Hin. apply Hall in Hin. congruence. }
  destruct (help_Visible (help m)) eqn:Hv.
  { exfalso. apply Hno.
    destruct (Update_under_help msg m Hv) as (-> & _).
    destruct (help_Update msg (help m)).2; repeat constructor. }
  unfold Update in *. rewrite Hv in *.
  destruct msg as [a b X Y|w h|key| |quotes e|sym tr d [e|]|sym tr|tag].
  - exfalso. apply Hno. case_match;
      [apply refreshCurrentChart_no_tick|apply forward_no_tick; constructor].
  - exfalso. apply Hno. apply forward_no_tick. constructor.
  - exfalso. apply Hno. apply onKey_no_tick.
  - exfalso. apply Hno. apply forward_no_tick. by repeat constructor.
  - exfalso. apply Hno. destruct (onQuotes quotes e m) as [m1 c1] eqn:E.
    apply forward_no_tick. replace c1 with (onQuotes quotes e m).2 by (by rewrite E).
    unfold onQuotes. repeat case_match; by repeat constructor.
  - destruct (errors_As_RateLimit e) as [retryAfter|] eqn:He.
    + cbn in Hin. destruct Hin as [<-|[]]. by exists sym, tr, d, e, retryAfter.
    + exfalso. apply Hno. apply forward_no_tick. constructor.
  - exfalso. apply Hno. apply forward_no_tick. constructor.
  - exfalso. apply Hno. apply forward_no_tick. by repeat constructor.
  - exfalso. apply Hno. apply forward_no_tick. constructor.
Qed.

Lemma cmdOf_not_fetch (c : option string) (s : string) (tr : TimeRange) :
  ¬ In (fetchHistory s tr) (cmdOf c).
Proof. destruct c; cbn; [intros [Heq|[]]; discriminate Heq|intros []]. Qed.

Lemma forward_timeRange msg m cmds : timeRange (forward msg m cmds).1 = timeRange m.
Proof. unfold forward. repeat case_match; simplify_eq/=; done. Qed.

Lemma forward_fetch msg m cmds (s : string) (tr : TimeRange) :
  In (fetchHistory s tr) (forward msg m cmds).2 →
  In (fetchHistory s tr) cmds ∨ (tr = timeRange m ∧ s ≠ ""%string).
Proof.
  unfold forward, Chart.Update.
  destruct (Watchlist.Update msg (watchlist m)) as [wl wc].
  cbn [watchlist set_watchlist lastHistory timeRange chart].
  destruct (negb (SelectedSymbol (watchlist m) =? SelectedSymbol wl)%string
            && negb (SelectedSymbol wl =? "")%string) eqn:Hmove.
  - apply andb_true_iff in Hmove as [_ Hne]. apply negb_true_iff, String.eqb_neq in Hne.
    destruct (lastHistory m !! cacheKey (SelectedSymbol wl) (timeRange m)); cbn [fst snd cmdOf];
      rewrite ?app_nil_r, ?in_app_iff; intros Hin.
    + destruct Hin as [Hin|Hin]; [by left|]. by apply cmdOf_not_fetch in Hin.
    + destruct Hin as [[Hin|Hin]|Hin]; [by left|by apply cmdOf_not_fetch in Hin|].
      destruct Hin as [[= <- <-]|[]]. by right.
  - cbn [fst snd cmdOf]. rewrite app_nil_r, in_app_iff. intros [Hin|Hin]; [by left|].
    by apply cmdOf_not_fetch in Hin.
Qed.

Lemma refreshCurrentChart_fetch m (s : string) (tr : TimeRange) :
  timeRange (refreshCurrentChart m).1 = timeRange m
  ∧ (In (fetchHistory s tr) (refreshCurrentChart m).2 →
     tr = timeRange m ∧ s ≠ ""%string).
Proof.
  unfold refreshCurrentChart.
  destruct (String.eqb_spec (SelectedSymbol (watchlist m)) ""); cbn; [done|].
  split; [done|]. by intros [[= <- <-]|[]].
Qed.

Lemma loadCurrentChart_fetch m (s : string) (tr : TimeRange) :
  timeRange (loadCurrentChart m).1 = timeRange m
  ∧ (In (fetchHistory s tr) (loadCurrentChart m).2 →
     tr = timeRange m ∧ s ≠ ""%string).
Proof.
  unfold loadCurrentChart.
  destruct (String.eqb_spec (SelectedSymbol (watchlist m)) ""); cbn; [done|].
  destruct (lastHistory m !! _); cbn; [done|].
  split; [done|]. by intros [[= <- <-]|[]].
Qed.

Lemma onKey_fetch key m (s : string) (tr : TimeRange) :
  In (fetchHistory s tr) (onKey key m).2 →
  tr = timeRange (onKey key m).1 ∧ s ≠ ""%string.
Proof.
  unfold onKey.
  repeat match goal with
         | |- context [if ?b then _ else _] => destruct b
         end;
    try (cbn; by intros [Heq|[]]); try (by intros []);
    try (intros Hin;
         match goal with
         | |- _ = timeRange (loadCurrentChart ?m0).1 ∧ _ =>
             destruct (loadCurrentChart_fetch m0 s tr) as [-> Hf]; by apply Hf
         end).
  - destruct (refreshCurrentChart m) as [m1 c1] eqn:E. cbn [fst snd].
    intros [Heq|Hin]; [discriminate Heq|].
    destruct (refreshCurrentChart_fetch m s tr) as [Ht Hf]. rewrite E in Ht, Hf.
    cbn [fst snd] in Ht, Hf. rewrite Ht. by apply Hf.
  - intros Hin. rewrite forward_timeRange.
    apply forward_fetch in Hin as [[]|Hin]. done.
Qed.

(** X19. A history fetch issued by [Update] is for a non-empty symbol at the
    range that is active afterwards; the one exception is the fetch of a retry
    message, which is for the pair the message names. *)
Theorem history_fetch_is_for_the_active_range msg m (s : string) (tr : TimeRange) :
  In (fetchHistory s tr) (Update msg m).2 →
  (tr = timeRange (Update msg m).1 ∧ s ≠ ""%string) ∨ msg = retryHistoryMsg s tr.
Proof.
  intros Hin. destruct (help_Visible (help m)) eqn:Hv.
  { destruct (Update_under_help msg m Hv) as (Hc & _).
    rewrite Hc in Hin. by apply cmdOf_not_fetch in Hin. }
  unfold Update in *. rewrite Hv in *.
  destruct msg as [a b X Y|w h|key| |quotes e|sym tr' d [e|]|sym tr'|tag].
  - left. destruct (pressedLeft a b && (Y =? height m - 1)).
    + destruct (refreshCurrentChart_fetch (cycleTimeRange m) s tr) as [-> Hf]. by apply Hf.
    + rewrite forward_timeRange. by apply forward_fetch in Hin as [[]|Hin].
  - left. rewrite forward_timeRange. by apply forward_fetch in Hin as [[]|Hin].
  - left. by apply onKey_fetch.
  - left. rewrite forward_timeRange.
    apply forward_fetch in Hin as [Hin|Hin]; [|done].
    destruct Hin as [Heq|[Heq|[]]]; discriminate Heq.
  - left. destruct (onQuotes quotes e m) as [m1 c1] eqn:E.
    rewrite forward_timeRange.
    apply forward_fetch in Hin as [Hin|Hin]; [|done].
    revert E Hin. unfold onQuotes.
    repeat case_match; intros [= <- <-]; cbn; try done.
    intros [[= <- <-]|[]]. split; [done|].
    match goal with
    | Hne : negb (?x =? "")%string = true |- ?x ≠ _ =>
        by apply negb_true_iff, String.eqb_neq in Hne
    end.
  - left. destruct (errors_As_RateLimit e).
    + cbn in Hin. destruct Hin as [Heq|[]]. discriminate Heq.
    + rewrite forward_timeRange. by apply forward_fetch in Hin as [[]|Hin].
  - left. rewrite forward_timeRange. apply forward_fetch in Hin as [[]|Hin].
    split; [|tauto]. destruct Hin as [-> _]. unfold onHistory.
    by repeat case_match.
  - rewrite forward_timeRange.
    apply forward_fetch in Hin as [[[= <- <-]|[]]|Hin]; [by right|].
    left. destruct Hin as [-> Hne]. split; [|done]. by case_match.
  - left. rewrite forward_timeRange. by apply forward_fetch in Hin as [[]|Hin].
Qed.

Lemma forward_sizes msg m cmds :
  Watchlist.width (watchlist (forward msg m cmds).1) = Watchlist.width (watchlist m)
  ∧ Watchlist.height (watchlist (forward msg m cmds).1) = Watchlist.height (watchlist m)
  ∧ Chart.width (chart (forward msg m cmds).1) = Chart.width (chart m)
  ∧ Chart.height (chart (forward msg m cmds).1) = Chart.height (chart m)
  ∧ width (forward msg m cmds).1 = width m
  ∧ height (forward msg m cmds).1 = height m.
Proof.
  unfold forward, Chart.Update, Watchlist.Update.
  destruct (list_Update msg _) as [l c].
  repeat case_match; simplify_eq/=; done.
Qed.

(** X20. A resize that arrives while the help overlay is hidden splits the
    terminal: the watchlist pane gets between 30 and 45 columns, the chart
    pane the remaining columns, and both get all rows but the footer's. *)
Theorem resize_splits_the_terminal m (w h : Z) :
  help_Visible (help m) = false →
  let m' := (Update (WindowSizeMsg w h) m).1 in
  width m' = w ∧ height m' = h
  ∧ 30 ≤ Watchlist.width (watchlist m') ≤ 45
  ∧ Watchlist.width (watchlist m') + Chart.width (chart m') = w
  ∧ Watchlist.height (watchlist m') = h - 1
  ∧ Chart.height (chart m') = h - 1.
Proof.
  intros Hv m'. subst m'. unfold Update. rewrite Hv.
  destruct (forward_sizes (WindowSizeMsg w h) (resize w h m) []) as
    (-> & -> & -> & -> & -> & ->).
  unfold resize. cbn.
  repeat match goal with
         | |- context [(?x <? ?y)] => destruct (Z.ltb_spec x y)
         | |- context [(?x >? ?y)] => rewrite (Z.gtb_ltb x y); destruct (Z.ltb_spec y x)
         end; lia.
Qed.

(** X21. A message that changes the selected symbol to a non-empty one shows
    the cached series of the new pair when there is one, and otherwise marks
    the chart loading and issues one history fetch for the new pair; a message
    that leaves the selection as it is, or empties it, adds no fetch and does
    not touch the chart. *)
Theorem selection_change_uses_the_cache msg m cmds :
  let wl := (Watchlist.Update msg (watchlist m)).1 in
  let wc := (Watchlist.Update msg (watchlist m)).2 in
  (SelectedSymbol wl = SelectedSymbol (watchlist m) ∨ SelectedSymbol wl = ""%string →
   (forward msg m cmds).2 = cmds ++ cmdOf wc ∧ chart (forward msg m cmds).1 = chart m)
  ∧ (SelectedSymbol wl ≠ SelectedSymbol (watchlist m) → SelectedSymbol wl ≠ ""%string →
     ∀ cached : list Candle,
       lastHistory m !! cacheKey (SelectedSymbol wl) (timeRange m) = Some cached →
       (forward msg m cmds).2 = cmds ++ cmdOf wc
       ∧ chart (forward msg m cmds).1
         = Chart.SetData (SelectedSymbol wl) (timeRange m) cached (chart m))
  ∧ (SelectedSymbol wl ≠ SelectedSymbol (watchlist m) → SelectedSymbol wl ≠ ""%string →
     lastHistory m !! cacheKey (SelectedSymbol wl) (timeRange m) = None →
     (forward msg m cmds).2
     = cmds ++ cmdOf wc ++ [fetchHistory (SelectedSymbol wl) (timeRange m)]
     ∧ chart (forward msg m cmds).1 = Chart.SetLoading true (chart m)).
Proof.
  intros wl wc. subst wl wc. unfold forward, Chart.Update.
  destruct (Watchlist.Update msg (watchlist m)) as [wl wc]. cbn [fst snd].
  cbn [watchlist set_watchlist lastHistory timeRange chart].
  split; [|split].
  - intros Hsame.
    assert (negb (SelectedSymbol (watchlist m) =? SelectedSymbol wl)%string
            && negb (SelectedSymbol wl =? "")%string = false) as ->.
    { apply andb_false_iff. destruct Hsame as [->| ->].
      - left. by rewrite String.eqb_refl.
      - right. by rewrite String.eqb_refl. }
    cbn. by rewrite app_nil_r.
  - intros Hmove Hne cached Hc. rewrite Hc.
    rewrite (proj2 (String.eqb_neq _ _)) by congruence.
    rewrite (proj2 (String.eqb_neq _ _) Hne). cbn. by rewrite app_nil_r.
  - intros Hmove Hne Hc. rewrite Hc.
    rewrite (proj2 (String.eqb_neq _ _)) by congruence.
    rewrite (proj2 (String.eqb_neq _ _) Hne). cbn. by rewrite app_nil_r, <- app_assoc.
Qed.

(** X22. The refresh key, while the help overlay is hidden, always issues the
    quotes fetch, and with a symbol selected also the history fetch of the
    selection at the active range, whether or not that pair is cached; the
    chart is then marked loading and the cache is left as it is. *)
Theorem refresh_key_bypasses_the_cache m :
  help_Visible (help m) = false →
  (SelectedSymbol (watchlist m) ≠ ""%string →
   (Update (KeyMsg "r") m).2
   = [fetchQuotes; fetchHistory (SelectedSymbol (watchlist m)) (timeRange m)]
   ∧ Chart.loading (chart (Update (KeyMsg "r") m).1) = true)
  ∧ (SelectedSymbol (watchlist m) = ""%string →
     (Update (KeyMsg "r") m).2 = [fetchQuotes] ∧ (Update (KeyMsg "r") m).1 = m)
  ∧ lastHistory (Update (KeyMsg "r") m).1 = lastHistory m.
Proof.
  intros Hv. unfold Update. rewrite Hv. cbn. unfold refreshCurrentChart.
  destruct (String.eqb_spec (SelectedSymbol (watchlist m)) "") as [Heq|Hne]; cbn.
  - split; [done|]. split; [done|done].
  - split; [done|]. split; [done|done].
Qed.


(** X24. Over any sequence of messages the cache only grows: a key that is
    present stays present. *)
Theorem run_never_evicts (msgs : list Msg) m (k : string) :
  is_Some (lastHistory m !! k) → is_Some (lastHistory (run msgs m) !! k).
Proof.
  induction msgs as [|msg msgs IH] using rev_ind; [done|].
  intros Hk. specialize (IH Hk). rewrite run_snoc, Update_lastHistory.
  destruct (help_Visible _); [done|].
  destruct msg as [a b X Y|w h|key| |quotes e|sym tr d [e|]|sym tr|tag]; try done.
  destruct (decide (cacheKey sym tr = k)) as [<-|Hne].
  - rewrite lookup_insert_eq. by eexists.
  - by rewrite lookup_insert_ne.
Qed.

End OrchestratorMore.

(** A tick while the help overlay is open: nothing is fetched and the wait
    for the next tick is not issued. *)
Lemma help_overlay_swallows_messages_witness :
  (App.Update tickMsg Plain.warmHelp).2 = []
  ∧ App.chart (App.Update tickMsg Plain.warmHelp).1 = App.chart Plain.warmHelp.
Proof.
  destruct (help_overlay_swallows_messages tickMsg Plain.warmHelp) as (Hc & _ & Hchart & _).
  - vm_compute. reflexivity.
  - split; [exact Hc|exact Hchart].
Defined.

Lemma timer_only_after_rate_limit_witness :
  ∃ (sym : string) (tr : TimeRange) (d : list Candle) (e : error) (retryAfter : Z),
    historyMsg "AAPL" Range24H [] (Some (RateLimitError (10 * Second)))
    = historyMsg sym tr d (Some e)
    ∧ errors_As_RateLimit e = Some retryAfter
    ∧ App.help_Visible (App.help Plain.warm) = false
    ∧ App.Tick (10 * Second) (retryHistoryMsg "AAPL" Range24H)
      = App.Tick retryAfter (retryHistoryMsg sym tr).
Proof.
  refine (timer_only_after_rate_limit
            (historyMsg "AAPL" Range24H [] (Some (RateLimitError (10 * Second))))
            Plain.warm (App.Tick (10 * Second) (retryHistoryMsg "AAPL" Range24H)) _ _).
  - vm_compute. left. reflexivity.
  - reflexivity.
Defined.

Lemma history_fetch_is_for_the_active_range_witness :
  (Range7D = App.timeRange (App.Update (MouseMsg MouseActionPress MouseButtonLeft 5 23)
                              Plain.warm).1
   ∧ "AAPL"%string ≠ ""%string)
  ∨ MouseMsg MouseActionPress MouseButtonLeft 5 23 = retryHistoryMsg "AAPL" Range7D.
Proof.
  refine (history_fetch_is_for_the_active_range
            (MouseMsg MouseActionPress MouseButtonLeft 5 23) Plain.warm "AAPL" Range7D _).
  vm_compute. left. reflexivity.
Defined.

Lemma resize_splits_the_terminal_witness :
  30 ≤ Watchlist.width (App.watchlist (App.Update (WindowSizeMsg 120 40) Plain.warm).1) ≤ 45
  ∧ Watchlist.width (App.watchlist (App.Update (WindowSizeMsg 120 40) Plain.warm).1)
    + Chart.width (App.chart (App.Update (WindowSizeMsg 120 40) Plain.warm).1) = 120.
Proof.
  destruct (resize_splits_the_terminal Plain.warm 120 40) as (_ & _ & Hw & Hsum & _).
  - reflexivity.
  - split; [exact Hw|exact Hsum].
Defined.

Lemma selection_change_uses_the_cache_witness :
  (App.forward (KeyMsg "j") Plain.warm []).2 = [App.fetchHistory "BTC-USD" Range24H]
  ∧ App.chart (App.forward (KeyMsg "j") Plain.warm []).1
    = Chart.SetLoading true (App.chart Plain.warm).
Proof.
  refine (proj2 (proj2 (selection_change_uses_the_cache (KeyMsg "j") Plain.warm [])) _ _ _).
  - vm_compute. discriminate.
  - vm_compute. discriminate.
  - vm_compute. reflexivity.
Defined.

Lemma refresh_key_bypasses_the_cache_witness :
  (App.Update (KeyMsg "r") Plain.warm).2
  = [App.fetchQuotes;
     App.fetchHistory (Watchlist.SelectedSymbol (App.watchlist Plain.warm))
       (App.timeRange Plain.warm)]
  ∧ Chart.loading (App.chart (App.Update (KeyMsg "r") Plain.warm).1) = true.
Proof.
  refine (proj1 (refresh_key_bypasses_the_cache Plain.warm _) _).
  - reflexivity.
  - vm_compute. discriminate.
Defined.


Lemma run_never_evicts_witness :
  is_Some (App.lastHistory
             (App.run [historyMsg "AAPL" Range24H [] (Some (opaqueError "timeout")); tickMsg]
                Plain.warm) !! App.cacheKey "AAPL" Range24H).
Proof.
  refine (run_never_evicts _ Plain.warm _ _).
  vm_compute. by eexists.
Defined.

(** Two quotes of AAPL in one slice: the row takes the second. *)
Lemma UpdateQuotes_last_quote_wins_witness :
  ∃ (updated : list Watchlist.item) (it' : Watchlist.item),
    Watchlist.list_
      (Watchlist.UpdateQuotes
         [{| Symbol := "AAPL"; Price := 101; ChangePct := 1 |};
          {| Symbol := "AAPL"; Price := 102; ChangePct := 2 |}] Plain.freshList)
    = Watchlist.list_SetItems updated (Watchlist.list_ Plain.freshList)
    ∧ updated !! 0%nat = Some it'
    ∧ Watchlist.price it' = 102%Q.
Proof.
  destruct (UpdateQuotes_last_quote_wins Plain.freshList
              [{| Symbol := "AAPL"; Price := 101; ChangePct := 1 |};
               {| Symbol := "AAPL"; Price := 102; ChangePct := 2 |}])
    as (updated & Hset & _ & _ & Hrows).
  destruct (Hrows 0%nat {| Watchlist.symbol := "AAPL"; Watchlist.price := 0;
                           Watchlist.changePct := 0 |}) as (it' & Hrow & Hq).
  - reflexivity.
  - exists updated, it'. split; [exact Hset|]. split; [exact Hrow|]. exact (proj1 Hq).
Defined.
